(** * One-photon ionisation data: channel resolution and hole registry

    A shallow embedding of [fortran_output_analysis/onephoton/onephoton.py]
    (the function [final_kappas] and the classes [IonisationPath],
    [Channels] and [OnePhoton]) together with the properties of the
    channel-resolution logic and of the hole registry.

    Conventions of the embedding.
    - Python integers (quantum numbers, kappas) are unbounded, and are
      modelled on [Z]; numpy's scalar [abs] and [sign] are [Z.abs] and
      [Z.sgn].
    - The numeric cells of the data files are modelled as exact rationals
      ([Qc]); rounding of binary floating point is outside the model.
    - Exceptions are values of [exn]; a method of a mutable object is a
      function from the program state to a result and a new state, and the
      state reached when an exception is raised is kept.
    - A [Channels] object is never mutated after its construction; it is
      modelled as its value together with an identity handed out at
      allocation, so that the object registered for a hole can be
      compared across calls.
    - The functions of [common_utility] are not part of the file under
      study; they are modelled from the specification and marked so.
    - Python's [assert] statements are modelled as enabled. *)

From Stdlib Require Import ZArith QArith Qcanon Lia.
From stdpp Require Import base gmap list strings pretty numbers.

Open Scope Z_scope.

(** ** Exceptions and results *)

Inductive exn : Type :=
| AssertionError (msg : string)
| IndexError
| KeyError
| ValueError
| FileNotFoundError (path : string)
| DataFileError (path : string).

Inductive result (A : Type) : Type :=
| Ok (a : A)
| Raise (e : exn).

Arguments Ok {A} a.
Arguments Raise {A} e.

Definition is_ok {A} (r : result A) : bool :=
  match r with Ok _ => true | Raise _ => false end.

#[global] Instance result_ret : MRet result := λ A a, Ok a.

#[global] Instance result_bind : MBind result := λ A B k r,
  match r with
  | Ok a => k a
  | Raise e => Raise e
  end.

(** ** Insertion-ordered dictionaries

    A Python [dict] whose iteration order is observable: assignment to a
    key that is present replaces the value in place, assignment to a new
    key appends. *)

Module Dict.
Section dict.
Context {K V : Type} `{EqDecision K}.

Definition t : Type := list (K * V).

Definition empty : t := [].

Fixpoint get (d : t) (k : K) : option V :=
  match d with
  | [] => None
  | (k', v) :: d' => if decide (k = k') then Some v else get d' k
  end.

Definition contains (d : t) (k : K) : bool :=
  match get d k with Some _ => true | None => false end.

Fixpoint set (d : t) (k : K) (v : V) : t :=
  match d with
  | [] => [(k, v)]
  | (k', v') :: d' =>
      if decide (k = k') then (k', v) :: d' else (k', v') :: set d' k v
  end.

Definition keys (d : t) : list K := d.*1.

Definition size (d : t) : nat := length d.
End dict.
Arguments t : clear implicits.
End Dict.

(** ** numpy arrays *)

Module Np.

(** A two-dimensional array of shape [(length rows, ncols)]. *)
Record table : Type := Table { ncols : nat; rows : list (list Qc) }.

Inductive ndarray : Type :=
| Array0 (x : Qc)
| Array1 (xs : list Qc)
| Array2 (t : table).

Definition rectangular (c : nat) (rs : list (list Qc)) : bool :=
  forallb (λ r, Nat.eqb (length r) c) rs.

Definition width (rs : list (list Qc)) : nat :=
  match rs with
  | [] => 0%nat
  | r :: _ => length r
  end.

(** [a[:, 1:]] on a two-dimensional array. *)
Definition drop_first_column (a : table) : table :=
  Table (Nat.pred (ncols a)) (drop 1 <$> rows a).

(** [a[:, -2:]] on a two-dimensional array. *)
Definition last_two_columns (a : table) : table :=
  Table (Nat.min 2 (ncols a)) ((λ r, drop (length r - 2) r) <$> rows a).

(** [a[:, j]] on a two-dimensional array, for a non-negative [j]. *)
Definition column (a : table) (j : nat) : result (list Qc) :=
  if decide (j < ncols a)%nat
  then Ok ((λ r, nth j r 0%Qc) <$> rows a)
  else Raise IndexError.

(** [a[:, j]] and [a[:, -2:]] on the result of [loadtxt]: an array of
    fewer than two dimensions has too many indices. *)
Definition ndarray_column (a : ndarray) (j : nat) : result (list Qc) :=
  match a with
  | Array2 t => column t j
  | _ => Raise IndexError
  end.

Definition ndarray_last_two_columns (a : ndarray) : result ndarray :=
  match a with
  | Array2 t => Ok (Array2 (last_two_columns t))
  | _ => Raise IndexError
  end.

(** The content of a text file, as the rows of numbers of its lines. *)
Definition text : Type := list (list Qc).

(** [np.loadtxt] with its default [ndmin=0]: blank lines are skipped,
    lines of different lengths are an error, and axes of length one are
    squeezed out of the result. *)
Definition loadtxt (files : gmap string text) (path : string)
  : result ndarray :=
  match files !! path with
  | None => Raise (FileNotFoundError path)
  | Some lines =>
      let rs := filter (λ r, r ≠ []) lines in
      let c := width rs in
      if negb (rectangular c rs) then Raise ValueError
      else match rs with
           | [] => Ok (Array1 [])
           | [r] => match r with
                    | [x] => Ok (Array0 x)
                    | _ => Ok (Array1 r)
                    end
           | _ => if Nat.eqb c 1 then Ok (Array1 (concat rs))
                  else Ok (Array2 (Table c rs))
           end
  end.

(** Complex numbers and the arithmetic used by the diagonal data. *)
Record complex : Type := Complex { real : Qc; imag : Qc }.

Definition of_real (x : Qc) : complex := Complex x 0.

Definition j1 : complex := Complex 0 1.

Definition cadd (a b : complex) : complex :=
  Complex (real a + real b) (imag a + imag b).

Definition cmul (a b : complex) : complex :=
  Complex (real a * real b - imag a * imag b)
          (real a * imag b + imag a * real b).

(** [re + 1j * im] on two one-dimensional arrays, elementwise. *)
Definition re_plus_1j_im (re im : list Qc) : list complex :=
  zip_with (λ x y, cadd (of_real x) (cmul j1 (of_real y))) re im.

End Np.

(** ** The collaborators of [common_utility] *)

Module CommonUtility.

(** Modelled from the spec: [l_from_kappa] is not part of the module
    under study; the orbital angular momentum is [kappa] for a positive
    [kappa] and [-kappa - 1] otherwise. *)
Definition l_from_kappa (kappa : Z) : Z :=
  if decide (0 < kappa) then kappa else - kappa - 1.

(** Modelled from the spec: [j_from_kappa_int] is the numerator of the
    half-integer [j = |kappa| - 1/2], the odd integer [2 j]. *)
Definition j_from_kappa_int (kappa : Z) : Z := 2 * Z.abs kappa - 1.

(** Modelled from the spec: [j_from_kappa] is [|kappa| - 1/2]. *)
Definition j_from_kappa (kappa : Z) : Qc :=
  (Q2Qc (inject_Z (Z.abs kappa)) - Q2Qc (1 # 2))%Qc.

(** Modelled from the spec: [l_to_str] gives the orbital letter of [l].
    The spec does not list the letters; the spectroscopic sequence is
    used, and no property below depends on it. *)
Definition l_to_str (l : Z) : string :=
  match l with
  | 0 => "s" | 1 => "p" | 2 => "d" | 3 => "f"
  | 4 => "g" | 5 => "h" | 6 => "i" | 7 => "k"
  | _ => "l" +:+ pretty l
  end.

(** Modelled from the spec: [construct_hole_name] builds the display
    name of a hole from the atom and the hole's [n] and [kappa]; the
    spec leaves the format open, and no property below depends on it. *)
Definition construct_hole_name (atom_name : string) (n kappa : Z)
  : string :=
  atom_name +:+ " " +:+ pretty n +:+ l_to_str (l_from_kappa kappa)
    +:+ "_{" +:+ pretty (j_from_kappa_int kappa) +:+ "/2}".

(** What the programs read: the text files that exist and parse, and,
    for the binding-energy loader, the energy it derives from a triple
    of files (Hartree-Fock energies, photon energies, kinetic
    energies). *)
Record World : Type := {
  files : gmap string Np.text;
  binding_energies : gmap (string * string * string) Qc
}.

(** Modelled from the spec: [load_raw_data] loads a two-dimensional
    numeric table from a path, and fails if the path does not exist or
    the content does not parse as a numeric table. *)
Definition load_raw_data (w : World) (path : string) : result Np.table :=
  match files w !! path with
  | None => Raise (DataFileError path)
  | Some rs =>
      if Np.rectangular (Np.width rs) rs
      then Ok (Np.Table (Np.width rs) rs)
      else Raise (DataFileError path)
  end.

(** Modelled from the spec: a [Hole] is identified by (atom, n, kappa)
    and carries the derived l and j, a display name and an optional
    binding energy. *)
Module Hole.
Record t : Type := {
  atom_name : string;
  kappa : Z;
  n : Z;
  l : Z;
  j : Qc;
  name : string;
  binding_energy : option Qc
}.

(** [Hole(atom_name, kappa, n, binding_energy=...)]. *)
Definition init (atom_name : string) (kappa n : Z)
    (binding_energy : option Qc) : t :=
  {| atom_name := atom_name;
     kappa := kappa;
     n := n;
     l := l_from_kappa kappa;
     j := j_from_kappa kappa;
     name := construct_hole_name atom_name n kappa;
     binding_energy := binding_energy |}.

(** Modelled from the spec: [_load_binding_energy] is the hole's own
    loader, an external collaborator that reads the Hartree-Fock and
    kinetic-energy files and sets the binding energy; it fails when
    its files cannot be read. *)
Definition _load_binding_energy (w : World) (self : t)
    (path_to_hf_energies path_to_omega path_to_sp_ekin : string)
  : result t :=
  match binding_energies w
          !! (path_to_hf_energies, path_to_omega, path_to_sp_ekin) with
  | None => Raise (DataFileError path_to_hf_energies)
  | Some e =>
      Ok {| atom_name := atom_name self;
            kappa := kappa self;
            n := n self;
            l := l self;
            j := j self;
            name := name self;
            binding_energy := Some e |}
  end.
End Hole.

End CommonUtility.

Import CommonUtility.

(** ** [IonisationPath] *)

Module IonisationPath.
Record t : Type := {
  kappa : Z;
  l : Z;
  j : Qc;
  name : string;
  column_index : nat
}.

Definition init (kappa : Z) (col_idx : nat) : t :=
  {| kappa := kappa;
     l := l_from_kappa kappa;
     j := j_from_kappa kappa;
     name := l_to_str (l_from_kappa kappa)
               +:+ "_{" +:+ pretty (j_from_kappa_int kappa) +:+ "/2}";
     column_index := col_idx |}.
End IonisationPath.

(** ** [final_kappas] *)

Definition final_kappas (hole_kappa : Z) (only_reachable : bool) : list Z :=
  let mag := Z.abs hole_kappa in
  let sig := Z.sgn hole_kappa in
  let kappas := [sig * (mag - 1); - sig * mag; sig * (mag + 1)] in
  if only_reachable
  then filter (λ kappa, kappa ≠ 0) kappas
  else kappas.

(** ** [Channels] *)

Module Channels.

Record t : Type := {
  hole : Hole.t;
  ionisation_paths : Dict.t Z IonisationPath.t;
  raw_omega_data : Np.table;
  raw_rate_data : Np.table;
  raw_amp_data : Np.table;
  raw_phaseF_data : Np.table;
  raw_phaseG_data : Np.table
}.

(** The loop of [__add_ionisation_path]: every candidate advances the
    column index, a reachable one is entered in the dictionary. *)
Fixpoint add_loop (possible_final_kappas reachable_final_kappas : list Z)
    (column_index : nat) (paths : Dict.t Z IonisationPath.t)
  : Dict.t Z IonisationPath.t :=
  match possible_final_kappas with
  | [] => paths
  | kappa :: rest =>
      let paths' :=
        if decide (kappa ∈ reachable_final_kappas)
        then Dict.set paths kappa (IonisationPath.init kappa column_index)
        else paths in
      add_loop rest reachable_final_kappas (S column_index) paths'
  end.

Definition add_ionisation_path (hole : Hole.t)
    (paths : Dict.t Z IonisationPath.t) : Dict.t Z IonisationPath.t :=
  let kappa_hole := Hole.kappa hole in
  let possible_final_kappas := final_kappas kappa_hole false in
  let reachable_final_kappas := final_kappas kappa_hole true in
  add_loop possible_final_kappas reachable_final_kappas 0 paths.

Definition init (w : World)
    (path_to_omega path_to_pcur path_to_amp_all
     path_to_phaseF_all path_to_phaseG_all : string)
    (hole : Hole.t) : result t :=
  let paths := add_ionisation_path hole Dict.empty in
  raw_omega_data ← load_raw_data w path_to_omega;
  raw_rate_data ← load_raw_data w path_to_pcur;
  raw_amp_data ← load_raw_data w path_to_amp_all;
  raw_phaseF_data ← load_raw_data w path_to_phaseF_all;
  raw_phaseG_data ← load_raw_data w path_to_phaseG_all;
  Ok {| hole := hole;
        ionisation_paths := paths;
        raw_omega_data := raw_omega_data;
        raw_rate_data := Np.drop_first_column raw_rate_data;
        raw_amp_data := Np.drop_first_column raw_amp_data;
        raw_phaseF_data := Np.drop_first_column raw_phaseF_data;
        raw_phaseG_data := Np.drop_first_column raw_phaseG_data |}.

Definition get_all_ionisation_paths (self : t)
  : Dict.t Z IonisationPath.t :=
  ionisation_paths self.

Definition check_ionisation_path (self : t) (final_kappa : Z) : bool :=
  Dict.contains (ionisation_paths self) final_kappa.

(** The error raised for a final kappa that is not a channel of the
    hole. *)
Definition channel_not_found (self : t) (final_kappa : Z) : exn :=
  AssertionError
    ("The state with final kappa " +:+ pretty final_kappa
       +:+ " is not within ionisation paths for "
       +:+ Hole.name (hole self) +:+ " hole!").

Definition assert_ionisation_path (self : t) (final_kappa : Z)
  : result unit :=
  if check_ionisation_path self final_kappa
  then Ok tt
  else Raise (channel_not_found self final_kappa).

Definition get_ionisation_path (self : t) (final_kappa : Z)
  : result IonisationPath.t :=
  _ ← assert_ionisation_path self final_kappa;
  match Dict.get (ionisation_paths self) final_kappa with
  | Some p => Ok p
  | None => Raise KeyError
  end.

Definition get_raw_omega_data (self : t) : Np.table :=
  raw_omega_data self.

Definition get_raw_amp_data (self : t) (final_kappa : Z)
  : result (list Qc) :=
  ionisation_path ← get_ionisation_path self final_kappa;
  let column_index := IonisationPath.column_index ionisation_path in
  Np.column (raw_amp_data self) column_index.

Definition get_raw_phaseF_data (self : t) (final_kappa : Z)
  : result (list Qc) :=
  ionisation_path ← get_ionisation_path self final_kappa;
  let column_index := IonisationPath.column_index ionisation_path in
  Np.column (raw_phaseF_data self) column_index.

Definition get_raw_phaseG_data (self : t) (final_kappa : Z)
  : result (list Qc) :=
  ionisation_path ← get_ionisation_path self final_kappa;
  let column_index := IonisationPath.column_index ionisation_path in
  Np.column (raw_phaseG_data self) column_index.

Definition get_raw_rate (self : t) (final_kappa : Z)
  : result (list Qc) :=
  ionisation_path ← get_ionisation_path self final_kappa;
  let column_index := IonisationPath.column_index ionisation_path in
  Np.column (raw_rate_data self) column_index.

Definition get_hole_object (self : t) : Hole.t := hole self.

End Channels.

(** ** Program state

    A [Channels] object is a value together with its identity (what
    Python's [id] tells apart); identities are handed out in allocation
    order.  The trace records what the program prints and its calls to
    the binding-energy loader. *)

Record object (A : Type) : Type := Object { id : nat; val : A }.

Arguments Object {A} id val.
Arguments id {A} o.
Arguments val {A} o.

Inductive event : Type :=
| Printed (msg : string)
| BindingEnergyLoaded (path_to_hf_energies path_to_omega path_to_sp_ekin : string).

(** ** [OnePhoton] *)

Module OnePhoton.

Record t : Type := {
  diag_eigenvalues : option (list Np.complex);
  diag_matrix_elements : option (list Np.complex);
  diag_loaded : bool;
  atom_name : string;
  channels : gmap (Z * Z) (object Channels.t);
  num_channels : Z;
  g_omega_IR : Qc
}.

Record state : Type := State {
  self : t;
  next_id : nat;
  trace : list event
}.

(** A method: from a state to a result and the state it leaves. *)
Definition M (A : Type) : Type := state → result A * state.

#[global] Instance M_ret : MRet M := λ A a s, (Ok a, s).

#[global] Instance M_bind : MBind M := λ A B k m s,
  match m s with
  | (Ok a, s') => k a s'
  | (Raise e, s') => (Raise e, s')
  end.

Definition raise {A} (e : exn) : M A := λ s, (Raise e, s).

Definition pass : M unit := mret tt.

Definition lift {A} (r : result A) : M A := λ s, (r, s).

Definition get_self : M t := λ s, (Ok (self s), s).

Definition put_self (o : t) : M unit :=
  λ s, (Ok tt, State o (next_id s) (trace s)).

Definition emit (e : event) : M unit :=
  λ s, (Ok tt, State (self s) (next_id s) (trace s ++ [e])).

Definition print (msg : string) : M unit := emit (Printed msg).

(** Allocation of a new object. *)
Definition new {A} (a : A) : M (object A) :=
  λ s, (Ok (Object (next_id s) a),
        State (self s) (S (next_id s)) (trace s)).

Definition set_diag_eigenvalues (v : list Np.complex) (o : t) : t :=
  {| diag_eigenvalues := Some v;
     diag_matrix_elements := diag_matrix_elements o;
     diag_loaded := diag_loaded o;
     atom_name := atom_name o;
     channels := channels o;
     num_channels := num_channels o;
     g_omega_IR := g_omega_IR o |}.

Definition set_diag_matrix_elements (v : list Np.complex) (o : t) : t :=
  {| diag_eigenvalues := diag_eigenvalues o;
     diag_matrix_elements := Some v;
     diag_loaded := diag_loaded o;
     atom_name := atom_name o;
     channels := channels o;
     num_channels := num_channels o;
     g_omega_IR := g_omega_IR o |}.

Definition set_diag_loaded (b : bool) (o : t) : t :=
  {| diag_eigenvalues := diag_eigenvalues o;
     diag_matrix_elements := diag_matrix_elements o;
     diag_loaded := b;
     atom_name := atom_name o;
     channels := channels o;
     num_channels := num_channels o;
     g_omega_IR := g_omega_IR o |}.

Definition set_channels (c : gmap (Z * Z) (object Channels.t)) (o : t)
  : t :=
  {| diag_eigenvalues := diag_eigenvalues o;
     diag_matrix_elements := diag_matrix_elements o;
     diag_loaded := diag_loaded o;
     atom_name := atom_name o;
     channels := c;
     num_channels := num_channels o;
     g_omega_IR := g_omega_IR o |}.

Definition set_num_channels (k : Z) (o : t) : t :=
  {| diag_eigenvalues := diag_eigenvalues o;
     diag_matrix_elements := diag_matrix_elements o;
     diag_loaded := diag_loaded o;
     atom_name := atom_name o;
     channels := channels o;
     num_channels := k;
     g_omega_IR := g_omega_IR o |}.

Definition modify_self (f : t → t) : M unit :=
  o ← get_self; put_self (f o).

(** [OnePhoton(atom_name, g_omega_IR)]. *)
Definition init (atom_name : string) (g_omega_IR : Qc) : t :=
  {| diag_eigenvalues := None;
     diag_matrix_elements := None;
     diag_loaded := false;
     atom_name := atom_name;
     channels := ∅;
     num_channels := 0;
     g_omega_IR := g_omega_IR |}.

(** The state of a program that has just built its registry. *)
Definition start (atom_name : string) (g_omega_IR : Qc) : state :=
  State (init atom_name g_omega_IR) 0 [].

(** Python's [not path] for an optional string: true for [None] and
    for the empty string. *)
Definition not_str (path : option string) : bool :=
  match path with
  | None => true
  | Some p => bool_decide (p = "")
  end.

(** Python's [not binding_energy] for an optional number: true for
    [None] and for zero. *)
Definition not_num (x : option Qc) : bool :=
  match x with
  | None => true
  | Some v => bool_decide (v = 0%Qc)
  end.

Definition os_path_sep : string := "/".

Definition load_diag_eigenvalues (w : World)
    (path_to_diag_eigenvalues : string) : M unit :=
  eigenvals_raw ← lift (Np.loadtxt (files w) path_to_diag_eigenvalues);
  eigvals_re ← lift (Np.ndarray_column eigenvals_raw 0);
  eigvals_im ← lift (Np.ndarray_column eigenvals_raw 1);
  modify_self (set_diag_eigenvalues (Np.re_plus_1j_im eigvals_re eigvals_im)).

Definition load_diag_matrix_elements (w : World)
    (path_to_diag_matrix_elements : string) : M unit :=
  matrix_elements_raw ←
    lift (Np.loadtxt (files w) path_to_diag_matrix_elements);
  matrix_elements_raw ←
    lift (Np.ndarray_last_two_columns matrix_elements_raw);
  matrix_elements_re ← lift (Np.ndarray_column matrix_elements_raw 0);
  matrix_elements_im ← lift (Np.ndarray_column matrix_elements_raw 1);
  modify_self
    (set_diag_matrix_elements
       (Np.re_plus_1j_im matrix_elements_re matrix_elements_im)).

Definition load_diag_data (w : World) (path_to_data : string)
    (path_to_diag_eigenvalues path_to_diag_matrix_elements : option string)
    (should_reload : bool) : M unit :=
  o ← get_self;
  if negb (diag_loaded o) || should_reload then
    _ ← (if diag_loaded o && should_reload
         then print ("Reload diagonal matrix elements and eigenvalues in "
                       +:+ atom_name o +:+ "!")
         else pass);
    let path_to_diag_eigenvalues :=
      if not_str path_to_diag_eigenvalues
      then path_to_data +:+ "diag_eigenvalues_Jtot1.dat"
      else default "" path_to_diag_eigenvalues in
    let path_to_diag_matrix_elements :=
      if not_str path_to_diag_matrix_elements
      then path_to_data +:+ "diag_matrix_elements_Jtot1.dat"
      else default "" path_to_diag_matrix_elements in
    _ ← load_diag_eigenvalues w path_to_diag_eigenvalues;
    _ ← load_diag_matrix_elements w path_to_diag_matrix_elements;
    modify_self (set_diag_loaded true)
  else pass.

(** The error raised by the diagonal accessors before a load. *)
Definition diag_data_not_loaded (o : t) : exn :=
  AssertionError
    ("Diagonal matrix elements and eigenvalues are not loaded for "
       +:+ atom_name o +:+ "!").

Definition assert_diag_data_load : M unit :=
  o ← get_self;
  if diag_loaded o then pass else raise (diag_data_not_loaded o).

(** The accessors return the attribute as it is, [None] included. *)
Definition get_diag_matrix_elements : M (option (list Np.complex)) :=
  _ ← assert_diag_data_load;
  o ← get_self;
  mret (diag_matrix_elements o).

Definition get_diag_eigenvalues : M (option (list Np.complex)) :=
  _ ← assert_diag_data_load;
  o ← get_self;
  mret (diag_eigenvalues o).

Definition is_hole_loaded (n_qn hole_kappa : Z) : M bool :=
  o ← get_self;
  mret (bool_decide (is_Some (channels o !! (n_qn, hole_kappa)))).

(** The optional arguments of [load_hole]. *)
Record load_hole_options : Type := {
  path_to_omega : option string;
  path_to_pcur_all : option string;
  path_to_amp_all : option string;
  path_to_phaseF_all : option string;
  path_to_phaseG_all : option string;
  binding_energy : option Qc;
  path_to_hf_energies : option string;
  path_to_sp_ekin : option string;
  should_reload : bool
}.

Definition defaults : load_hole_options :=
  {| path_to_omega := None;
     path_to_pcur_all := None;
     path_to_amp_all := None;
     path_to_phaseF_all := None;
     path_to_phaseG_all := None;
     binding_energy := None;
     path_to_hf_energies := None;
     path_to_sp_ekin := None;
     should_reload := false |}.

Definition load_hole (w : World) (n_qn hole_kappa : Z)
    (path_to_data : string) (opt : load_hole_options) : M unit :=
  is_loaded ← is_hole_loaded hole_kappa n_qn;
  if negb is_loaded || should_reload opt then
    o ← get_self;
    let hole :=
      Hole.init (atom_name o) hole_kappa n_qn (binding_energy opt) in
    _ ← (if is_loaded && should_reload opt
         then print ("Reload " +:+ Hole.name hole +:+ " hole!")
         else pass);
    let pert_path :=
      path_to_data
        +:+ ("pert_" +:+ pretty (Hole.kappa hole) +:+ "_"
               +:+ pretty (Hole.n hole - Hole.l hole))
        +:+ os_path_sep in
    let path_to_pcur_all :=
      default (pert_path +:+ "pcur_all.dat") (path_to_pcur_all opt) in
    let path_to_amp_all :=
      default (pert_path +:+ "amp_all.dat") (path_to_amp_all opt) in
    let path_to_phaseF_all :=
      default (pert_path +:+ "phaseF_all.dat") (path_to_phaseF_all opt) in
    let path_to_phaseG_all :=
      default (pert_path +:+ "phaseG_all.dat") (path_to_phaseG_all opt) in
    let path_to_omega :=
      default (pert_path +:+ "omega.dat") (path_to_omega opt) in
    hole ←
      (if not_num (binding_energy opt) then
         let path_to_hf_energies :=
           default (path_to_data +:+ "hf_wavefunctions" +:+ os_path_sep
                      +:+ ("hf_energies_kappa_"
                             +:+ pretty (Hole.kappa hole) +:+ ".dat"))
                   (path_to_hf_energies opt) in
         let path_to_sp_ekin :=
           default (path_to_data +:+ "second_photon" +:+ os_path_sep
                      +:+ ("energy_rpa_" +:+ pretty (Hole.kappa hole)
                             +:+ "_"
                             +:+ pretty (Hole.n hole - Hole.l hole)
                             +:+ ".dat"))
                   (path_to_sp_ekin opt) in
         _ ← emit (BindingEnergyLoaded path_to_hf_energies path_to_omega
                     path_to_sp_ekin);
         lift (Hole._load_binding_energy w hole path_to_hf_energies
                 path_to_omega path_to_sp_ekin)
       else mret hole);
    c ← lift (Channels.init w path_to_omega path_to_pcur_all
                path_to_amp_all path_to_phaseF_all path_to_phaseG_all
                hole);
    c ← new c;
    _ ← modify_self
          (λ o, set_channels (<[(n_qn, hole_kappa) := c]> (channels o)) o);
    modify_self (λ o, set_num_channels (num_channels o + 1) o)
  else pass.

(** The error raised by the channel queries for a hole without a
    [Channels] object. *)
Definition hole_not_loaded (o : t) (n_qn hole_kappa : Z) : exn :=
  AssertionError
    ("The " +:+ construct_hole_name (atom_name o) n_qn hole_kappa
       +:+ " hole is not loaded!").

Definition assert_hole_load (n_qn hole_kappa : Z) : M unit :=
  loaded ← is_hole_loaded n_qn hole_kappa;
  o ← get_self;
  if (loaded : bool) then pass
  else raise (hole_not_loaded o n_qn hole_kappa).

Definition get_channels_for_hole (n_qn hole_kappa : Z)
  : M (object Channels.t) :=
  _ ← assert_hole_load n_qn hole_kappa;
  o ← get_self;
  match channels o !! (n_qn, hole_kappa) with
  | Some c => mret c
  | None => raise KeyError
  end.

Definition get_all_channels : M (gmap (Z * Z) (object Channels.t)) :=
  o ← get_self; mret (channels o).

Definition get_channel_labels_for_hole (n_qn hole_kappa : Z)
  : M (list string) :=
  _ ← assert_hole_load n_qn hole_kappa;
  channels ← get_channels_for_hole n_qn hole_kappa;
  let hole := Channels.get_hole_object (val channels) in
  let hole_name := Hole.name hole in
  let ionisation_paths := Channels.get_all_ionisation_paths (val channels) in
  lift (foldl
          (λ (channel_labels : result (list string)) (final_kappa : Z),
             channel_labels ← channel_labels;
             ionisation_path ←
               Channels.get_ionisation_path (val channels) final_kappa;
             mret (channel_labels
                     ++ [hole_name +:+ " to "
                           +:+ IonisationPath.name ionisation_path]))
          (Ok ([] : list string)) (Dict.keys ionisation_paths)).

End OnePhoton.

(** ** Vocabulary of the properties

    The paths [load_hole] resolves, what it reads and what it reports,
    written as functions of its arguments; the lemmas below relate them
    to [OnePhoton.load_hole]. *)

Module Resolved.
Import OnePhoton.

Definition pert_path (path_to_data : string) (n_qn hole_kappa : Z)
  : string :=
  path_to_data
    +:+ ("pert_" +:+ pretty hole_kappa +:+ "_"
           +:+ pretty (n_qn - l_from_kappa hole_kappa))
    +:+ os_path_sep.

Definition omega (data : string) (n k : Z) (opt : load_hole_options)
  : string :=
  default (pert_path data n k +:+ "omega.dat") (path_to_omega opt).

Definition pcur (data : string) (n k : Z) (opt : load_hole_options)
  : string :=
  default (pert_path data n k +:+ "pcur_all.dat") (path_to_pcur_all opt).

Definition amp (data : string) (n k : Z) (opt : load_hole_options)
  : string :=
  default (pert_path data n k +:+ "amp_all.dat") (path_to_amp_all opt).

Definition phaseF (data : string) (n k : Z) (opt : load_hole_options)
  : string :=
  default (pert_path data n k +:+ "phaseF_all.dat") (path_to_phaseF_all opt).

Definition phaseG (data : string) (n k : Z) (opt : load_hole_options)
  : string :=
  default (pert_path data n k +:+ "phaseG_all.dat") (path_to_phaseG_all opt).

Definition hf_energies (data : string) (k : Z) (opt : load_hole_options)
  : string :=
  default (data +:+ "hf_wavefunctions" +:+ os_path_sep
             +:+ ("hf_energies_kappa_" +:+ pretty k +:+ ".dat"))
          (path_to_hf_energies opt).

Definition sp_ekin (data : string) (n k : Z) (opt : load_hole_options)
  : string :=
  default (data +:+ "second_photon" +:+ os_path_sep
             +:+ ("energy_rpa_" +:+ pretty k +:+ "_"
                    +:+ pretty (n - l_from_kappa k) +:+ ".dat"))
          (path_to_sp_ekin opt).

(** The call to the binding-energy loader made by a load, if any. *)
Definition loader_calls (data : string) (n k : Z) (opt : load_hole_options)
  : list event :=
  if not_num (binding_energy opt)
  then [BindingEnergyLoaded (hf_energies data k opt) (omega data n k opt)
          (sp_ekin data n k opt)]
  else [].

(** What a load prints: the reload notice, for a hole found loaded. *)
Definition notices (atom : string) (n k : Z) (is_loaded : bool)
    (opt : load_hole_options) : list event :=
  if is_loaded && should_reload opt
  then [Printed ("Reload " +:+ construct_hole_name atom n k +:+ " hole!")]
  else [].

(** The hole a load builds, with its binding energy. *)
Definition hole (w : World) (atom data : string) (n k : Z)
    (opt : load_hole_options) : result Hole.t :=
  let h := Hole.init atom k n (binding_energy opt) in
  if not_num (binding_energy opt)
  then Hole._load_binding_energy w h (hf_energies data k opt)
         (omega data n k opt) (sp_ekin data n k opt)
  else Ok h.

(** The [Channels] value a load parses from the files of [w]. *)
Definition parsed (w : World) (atom data : string) (n k : Z)
    (opt : load_hole_options) : result Channels.t :=
  h ← hole w atom data n k opt;
  Channels.init w (omega data n k opt) (pcur data n k opt)
    (amp data n k opt) (phaseF data n k opt) (phaseG data n k opt) h.

(** The state after a load that registered the object [c]. *)
Definition registered (s : state) (n k : Z) (evs : list event)
    (c : Channels.t) : state :=
  State
    (set_num_channels (num_channels (self s) + 1)
       (set_channels
          (<[(n, k) := Object (next_id s) c]> (channels (self s)))
          (self s)))
    (S (next_id s))
    (trace s ++ evs).

Definition eigenvalues_path (data : string) (path : option string)
  : string :=
  if not_str path then data +:+ "diag_eigenvalues_Jtot1.dat"
  else default "" path.

Definition matrix_elements_path (data : string) (path : option string)
  : string :=
  if not_str path then data +:+ "diag_matrix_elements_Jtot1.dat"
  else default "" path.

(** The arrays a diagonal load computes from a file of [w]. *)
Definition eigenvalues (w : World) (path : string)
  : result (list Np.complex) :=
  a ← Np.loadtxt (files w) path;
  re ← Np.ndarray_column a 0;
  im ← Np.ndarray_column a 1;
  Ok (Np.re_plus_1j_im re im).

Definition matrix_elements (w : World) (path : string)
  : result (list Np.complex) :=
  a ← Np.loadtxt (files w) path;
  a ← Np.ndarray_last_two_columns a;
  re ← Np.ndarray_column a 0;
  im ← Np.ndarray_column a 1;
  Ok (Np.re_plus_1j_im re im).

(** What a diagonal load prints. *)
Definition diag_notices (o : t) (should_reload : bool) : list event :=
  if diag_loaded o && should_reload
  then [Printed ("Reload diagonal matrix elements and eigenvalues in "
                   +:+ atom_name o +:+ "!")]
  else [].

End Resolved.

(** Every key of the path dictionary indexes a column of each of the four
    stored tables. *)
Definition column_index_in_range (ch : Channels.t) : Prop :=
  ∀ (k : Z) (p : IonisationPath.t),
    Dict.get (Channels.ionisation_paths ch) k = Some p →
    (IonisationPath.column_index p < Np.ncols (Channels.raw_rate_data ch))%nat
    ∧ (IonisationPath.column_index p
       < Np.ncols (Channels.raw_amp_data ch))%nat
    ∧ (IonisationPath.column_index p
       < Np.ncols (Channels.raw_phaseF_data ch))%nat
    ∧ (IonisationPath.column_index p
       < Np.ncols (Channels.raw_phaseG_data ch))%nat.

(** Each of the four stored tables has [c] columns. *)
Definition stored_width (ch : Channels.t) (c : nat) : Prop :=
  Np.ncols (Channels.raw_rate_data ch) = c
  ∧ Np.ncols (Channels.raw_amp_data ch) = c
  ∧ Np.ncols (Channels.raw_phaseF_data ch) = c
  ∧ Np.ncols (Channels.raw_phaseG_data ch) = c.

(** The complex number of a row [re, im, ...]. *)
Definition first_two (r : list Qc) : Np.complex :=
  Np.Complex (nth 0 r 0%Qc) (nth 1 r 0%Qc).

(** The complex number of a row [..., re, im]. *)
Definition final_two (r : list Qc) : Np.complex :=
  Np.Complex (nth (length r - 2) r 0%Qc) (nth (length r - 1) r 0%Qc).

(** The labels of the channels of a [Channels] object, in the order of
    its keys. *)
Definition label (c : Channels.t) (final_kappa : Z) : string :=
  Hole.name (Channels.hole c) +:+ " to "
    +:+ from_option IonisationPath.name ""
          (Dict.get (Channels.ionisation_paths c) final_kappa).

Definition labels (c : Channels.t) : list string :=
  label c <$> Dict.keys (Channels.ionisation_paths c).

(** ** Sample data

    A data folder [out/] with the files of three holes of neon: 2s
    (kappa -1, two reachable channels, in files with two data columns
    and in files with three), 2p3/2 (kappa -2) and 3d3/2 (kappa 2), and
    the files of the diagonal data. *)

Module Sample.

Definition q (z : Z) : Qc := Q2Qc (inject_Z z).

Definition omega : Np.text := [[q 1]; [q 2]].

Definition two_channels : Np.text :=
  [[q 1; q 10; q 20]; [q 2; q 11; q 21]].

Definition three_channels : Np.text :=
  [[q 1; q 10; q 20; q 30]; [q 2; q 11; q 21; q 31]].

Definition eigenvalues : Np.text := [[q 1; q 2]; [q 3; q 4]].

Definition matrix_elements : Np.text :=
  [[q 9; q 1; q 2]; [q 9; q 3; q 4]].

Definition hole_files (dir : string) (t : Np.text)
  : list (string * Np.text) :=
  [(dir +:+ "omega.dat", omega);
   (dir +:+ "pcur_all.dat", t);
   (dir +:+ "amp_all.dat", t);
   (dir +:+ "phaseF_all.dat", t);
   (dir +:+ "phaseG_all.dat", t)].

Definition world : World :=
  {| files :=
       list_to_map
         (hole_files "out/pert_-1_2/" two_channels
            ++ hole_files "out/padded_-1_2/" three_channels
            ++ hole_files "out/pert_-2_1/" three_channels
            ++ hole_files "out/pert_2_1/" three_channels
            ++ [("out/diag_eigenvalues_Jtot1.dat", eigenvalues);
                ("out/diag_matrix_elements_Jtot1.dat", matrix_elements)]);
     binding_energies :=
       {[ ("out/hf_wavefunctions/hf_energies_kappa_-1.dat",
           "out/pert_-1_2/omega.dat",
           "out/second_photon/energy_rpa_-1_2.dat") := q 2 ]} |}.

(** The same folder after the files of the 2s hole were rewritten. *)
Definition world' : World :=
  {| files :=
       list_to_map
         (hole_files "out/pert_-1_2/" three_channels
            ++ hole_files "out/pert_-2_1/" three_channels);
     binding_energies := binding_energies world |}.

Definition with_binding_energy (e : Qc) : OnePhoton.load_hole_options :=
  {| OnePhoton.path_to_omega := None;
     OnePhoton.path_to_pcur_all := None;
     OnePhoton.path_to_amp_all := None;
     OnePhoton.path_to_phaseF_all := None;
     OnePhoton.path_to_phaseG_all := None;
     OnePhoton.binding_energy := Some e;
     OnePhoton.path_to_hf_energies := None;
     OnePhoton.path_to_sp_ekin := None;
     OnePhoton.should_reload := false |}.

Definition reloading (e : Qc) : OnePhoton.load_hole_options :=
  {| OnePhoton.path_to_omega := None;
     OnePhoton.path_to_pcur_all := None;
     OnePhoton.path_to_amp_all := None;
     OnePhoton.path_to_phaseF_all := None;
     OnePhoton.path_to_phaseG_all := None;
     OnePhoton.binding_energy := Some e;
     OnePhoton.path_to_hf_energies := None;
     OnePhoton.path_to_sp_ekin := None;
     OnePhoton.should_reload := true |}.

Definition neon : OnePhoton.state := OnePhoton.start "Ne" (q 0).

(** The holes 2s (kappa -1) and 2p3/2 (kappa -2), and a hole whose
    kappa is 0. *)
Definition hole_2s : Hole.t := Hole.init "Ne" (-1) 2 (Some (q 1)).

Definition hole_2p : Hole.t := Hole.init "Ne" (-2) 2 (Some (q 1)).

Definition hole_kappa_0 : Hole.t :=
  {| Hole.atom_name := "Ne";
     Hole.kappa := 0;
     Hole.n := 1;
     Hole.l := -1;
     Hole.j := q 0;
     Hole.name := "Ne hole";
     Hole.binding_energy := None |}.

(** The 2s hole loaded with a supplied binding energy, and then loaded
    again, with [should_reload], after its files were rewritten. *)
Definition after_load : OnePhoton.state :=
  (OnePhoton.load_hole world 2 (-1) "out/" (with_binding_energy (q 1))
     neon).2.

Definition after_reload : OnePhoton.state :=
  (OnePhoton.load_hole world' 2 (-1) "out/" (reloading (q 1))
     after_load).2.

(** The 2s hole loaded with the binding energy 0 supplied. *)
Definition after_load_0 : OnePhoton.state :=
  (OnePhoton.load_hole world 2 (-1) "out/" (with_binding_energy (q 0))
     neon).2.

(** The registry after its diagonal data were loaded. *)
Definition after_diag : OnePhoton.state :=
  (OnePhoton.load_diag_data world "out/" None None false neon).2.

(** The [Channels] object of a hole [h] from the files of a folder. *)
Definition channels_in (dir : string) (h : Hole.t) : result Channels.t :=
  Channels.init world (dir +:+ "omega.dat") (dir +:+ "pcur_all.dat")
    (dir +:+ "amp_all.dat") (dir +:+ "phaseF_all.dat")
    (dir +:+ "phaseG_all.dat") h.

End Sample.

(** ** Sessions

    A session is a sequence of loads on a new registry.  A load that
    raises leaves the registry as the exception found it, and the
    session goes on from there, as a caller that catches the exception
    would. *)

Inductive call : Type :=
| LoadHole (w : World) (n_qn hole_kappa : Z) (path_to_data : string)
    (opt : OnePhoton.load_hole_options)
| LoadDiagData (w : World) (path_to_data : string)
    (path_to_diag_eigenvalues path_to_diag_matrix_elements : option string)
    (should_reload : bool).

Definition perform (s : OnePhoton.state) (c : call) : OnePhoton.state :=
  match c with
  | LoadHole w n k data opt => (OnePhoton.load_hole w n k data opt s).2
  | LoadDiagData w data pe pm reload =>
      (OnePhoton.load_diag_data w data pe pm reload s).2
  end.

Definition session (atom_name : string) (g_omega_IR : Qc) (cs : list call)
  : OnePhoton.state :=
  foldl perform (OnePhoton.start atom_name g_omega_IR) cs.

(** What every session keeps true of the registry. *)
Record consistent (s : OnePhoton.state) : Prop := {
  counted :
    Z.of_nat (OnePhoton.next_id s) = OnePhoton.num_channels (OnePhoton.self s);
  bounded :
    Z.of_nat (size (OnePhoton.channels (OnePhoton.self s)))
    ≤ OnePhoton.num_channels (OnePhoton.self s);
  allocated :
    ∀ key o,
      OnePhoton.channels (OnePhoton.self s) !! key = Some o →
      (id o < OnePhoton.next_id s)%nat;
  keyed :
    ∀ key o,
      OnePhoton.channels (OnePhoton.self s) !! key = Some o →
      Hole.n (Channels.hole (val o)) = key.1
      ∧ Hole.kappa (Channels.hole (val o)) = key.2
      ∧ Hole.atom_name (Channels.hole (val o))
        = OnePhoton.atom_name (OnePhoton.self s)
      ∧ Dict.keys (Channels.ionisation_paths (val o))
        = final_kappas key.2 true;
  distinct :
    ∀ key1 key2 o1 o2,
      OnePhoton.channels (OnePhoton.self s) !! key1 = Some o1 →
      OnePhoton.channels (OnePhoton.self s) !! key2 = Some o2 →
      id o1 = id o2 → key1 = key2;
  complete :
    OnePhoton.diag_loaded (OnePhoton.self s) = true →
    is_Some (OnePhoton.diag_eigenvalues (OnePhoton.self s))
    ∧ is_Some (OnePhoton.diag_matrix_elements (OnePhoton.self s))
}.

(** The label of the channel of final kappa [k] of a hole named
    [hole_name]. *)
Definition channel_label (hole_name : string) (k : Z) : string :=
  hole_name +:+ " to " +:+ IonisationPath.name (IonisationPath.init k 0).

(** Column [j] of the rows of a file. *)
Definition file_column (j : nat) (rs : Np.text) : list Qc :=
  (λ r, nth j r 0%Qc) <$> rs.

(** ** More sample data *)

Module Sample2.

(** The folder [out/] after its eigenvalues file was rewritten and its
    matrix-elements file removed. *)
Definition world_without_matrix_elements : World :=
  {| files := {[ "out/diag_eigenvalues_Jtot1.dat"
                 := [[Sample.q 5; Sample.q 6]; [Sample.q 7; Sample.q 8]] ]};
     binding_energies := ∅ |}.

(** A folder whose eigenvalues file has a single line. *)
Definition world_one_line : World :=
  {| files := {[ "out/diag_eigenvalues_Jtot1.dat"
                 := [[Sample.q 1; Sample.q 2]] ]};
     binding_energies := ∅ |}.

(** A folder without any file. *)
Definition empty_world : World :=
  {| files := ∅; binding_energies := ∅ |}.

(** The 3d3/2 hole (n = 3, kappa = 2) loaded on a new registry. *)
Definition after_3d : OnePhoton.state :=
  (OnePhoton.load_hole Sample.world 3 2 "out/"
     (Sample.with_binding_energy (Sample.q 1)) Sample.neon).2.

(** A session: the 2s hole loaded twice, a hole whose files are missing,
    the diagonal data, and a reload of the 2s hole. *)
Definition calls : list call :=
  [LoadHole Sample.world 2 (-1) "out/"
     (Sample.with_binding_energy (Sample.q 1));
   LoadHole Sample.world 2 (-1) "out/"
     (Sample.with_binding_energy (Sample.q 1));
   LoadHole Sample.world 5 (-1) "out/"
     (Sample.with_binding_energy (Sample.q 1));
   LoadDiagData Sample.world "out/" None None false;
   LoadHole Sample.world' 2 (-1) "out/" (Sample.reloading (Sample.q 1));
   LoadHole Sample.world 2 (-2) "out/"
     (Sample.with_binding_energy (Sample.q 1))].

(** The options of a load of the 2s hole that names its five files. *)
Definition explicit_paths : OnePhoton.load_hole_options :=
  {| OnePhoton.path_to_omega := Some "out/pert_-1_2/omega.dat";
     OnePhoton.path_to_pcur_all := Some "out/pert_-1_2/pcur_all.dat";
     OnePhoton.path_to_amp_all := Some "out/pert_-1_2/amp_all.dat";
     OnePhoton.path_to_phaseF_all := Some "out/pert_-1_2/phaseF_all.dat";
     OnePhoton.path_to_phaseG_all := Some "out/pert_-1_2/phaseG_all.dat";
     OnePhoton.binding_energy := Some (Sample.q 1);
     OnePhoton.path_to_hf_energies := None;
     OnePhoton.path_to_sp_ekin := None;
     OnePhoton.should_reload := false |}.

End Sample2.

(** * Properties *)

(** ** Dictionaries *)

Section dict_facts.
Context {K V : Type} `{EqDecision K}.
Implicit Types (d : Dict.t K V) (k : K) (v : V).

Lemma dict_get_None d k : Dict.get d k = None ↔ k ∉ Dict.keys d.
Proof.
  unfold Dict.keys. induction d as [|[k' v'] d IH]; simpl.
  - split; [intros _; apply not_elem_of_nil | done].
  - rewrite not_elem_of_cons. destruct (decide (k = k')) as [->|Hne].
    + split; [discriminate | intros [? _]; done].
    + rewrite IH. tauto.
Qed.

Lemma dict_contains_false d k :
  Dict.contains d k = false ↔ k ∉ Dict.keys d.
Proof.
  rewrite <- dict_get_None. unfold Dict.contains.
  destruct (Dict.get d k); split; (done || discriminate).
Qed.

End dict_facts.

(** ** Selection rules *)


Lemma final_kappas_pos (k : Z) :
  0 < k → final_kappas k false = [k - 1; - k; k + 1].
Proof.
  intros Hk. unfold final_kappas.
  rewrite (Z.sgn_pos k), (Z.abs_eq k) by lia.
  repeat f_equal; lia.
Qed.

Lemma final_kappas_neg (k : Z) :
  k < 0 → final_kappas k false = [k + 1; - k; k - 1].
Proof.
  intros Hk. unfold final_kappas.
  rewrite (Z.sgn_neg k), (Z.abs_neq k) by lia.
  repeat f_equal; lia.
Qed.

Lemma final_kappas_reachable_filter (k : Z) :
  final_kappas k true = filter (λ c, c ≠ 0) (final_kappas k false).
Proof. reflexivity. Qed.

Lemma elem_of_reachable (k c : Z) :
  c ∈ final_kappas k true ↔ c ∈ final_kappas k false ∧ c ≠ 0.
Proof.
  rewrite final_kappas_reachable_filter, list_elem_of_filter. tauto.
Qed.

Lemma filter_nonzero_3 (a b c : Z) :
  a ≠ 0 → b ≠ 0 → c ≠ 0 → filter (λ x : Z, x ≠ 0) [a; b; c] = [a; b; c].
Proof.
  intros Ha Hb Hc.
  rewrite !filter_cons, filter_nil, !decide_True by done. done.
Qed.

Lemma final_kappas_all_reachable (k : Z) :
  2 ≤ Z.abs k → final_kappas k true = final_kappas k false.
Proof.
  intros Hk. rewrite final_kappas_reachable_filter.
  destruct (decide (0 < k)).
  - rewrite final_kappas_pos by done. apply filter_nonzero_3; lia.
  - rewrite final_kappas_neg by lia. apply filter_nonzero_3; lia.
Qed.

Lemma final_kappas_abs_1 (k : Z) :
  Z.abs k = 1 →
  final_kappas k false = [0; - k; 2 * k] ∧ final_kappas k true = [- k; 2 * k].
Proof.
  intros Hk. assert (k = 1 ∨ k = -1) as [-> | ->] by lia; split; reflexivity.
Qed.



(** ** Column indices of the ionisation paths *)

Lemma add_loop_all_reachable (c0 c1 c2 : Z) (reach : list Z) :
  c0 ∈ reach → c1 ∈ reach → c2 ∈ reach →
  c0 ≠ c1 → c0 ≠ c2 → c1 ≠ c2 →
  Channels.add_loop [c0; c1; c2] reach 0 Dict.empty
  = [(c0, IonisationPath.init c0 0);
     (c1, IonisationPath.init c1 1);
     (c2, IonisationPath.init c2 2)].
Proof.
  intros H0 H1 H2 H01 H02 H12. simpl.
  rewrite !decide_True by done. simpl.
  rewrite (decide_False (P := c1 = c0)) by congruence. simpl.
  rewrite (decide_False (P := c2 = c0)), (decide_False (P := c2 = c1))
    by congruence.
  reflexivity.
Qed.

Lemma add_loop_first_forbidden (c0 c1 c2 : Z) (reach : list Z) :
  c0 ∉ reach → c1 ∈ reach → c2 ∈ reach → c1 ≠ c2 →
  Channels.add_loop [c0; c1; c2] reach 0 Dict.empty
  = [(c1, IonisationPath.init c1 1); (c2, IonisationPath.init c2 2)].
Proof.
  intros H0 H1 H2 H12. simpl.
  rewrite (decide_False (P := c0 ∈ reach)) by done.
  rewrite !decide_True by done. simpl.
  rewrite (decide_False (P := c2 = c1)) by congruence.
  reflexivity.
Qed.

Lemma add_ionisation_path_all_reachable (hole : Hole.t) :
  2 ≤ Z.abs (Hole.kappa hole) →
  ∃ c0 c1 c2,
    final_kappas (Hole.kappa hole) false = [c0; c1; c2]
    ∧ Channels.add_ionisation_path hole Dict.empty
      = [(c0, IonisationPath.init c0 0);
         (c1, IonisationPath.init c1 1);
         (c2, IonisationPath.init c2 2)].
Proof.
  intros Hk. unfold Channels.add_ionisation_path.
  rewrite final_kappas_all_reachable by done.
  destruct (decide (0 < Hole.kappa hole)).
  - rewrite final_kappas_pos by done. eexists _, _, _. split; [done|].
    apply add_loop_all_reachable;
      rewrite ?elem_of_cons, ?elem_of_nil; try lia; tauto.
  - rewrite final_kappas_neg by lia. eexists _, _, _. split; [done|].
    apply add_loop_all_reachable;
      rewrite ?elem_of_cons, ?elem_of_nil; try lia; tauto.
Qed.

Lemma add_ionisation_path_one_forbidden (hole : Hole.t) :
  Z.abs (Hole.kappa hole) = 1 →
  ∃ c1 c2,
    final_kappas (Hole.kappa hole) false = [0; c1; c2]
    ∧ Channels.add_ionisation_path hole Dict.empty
      = [(c1, IonisationPath.init c1 1); (c2, IonisationPath.init c2 2)].
Proof.
  intros Hk. unfold Channels.add_ionisation_path.
  destruct (final_kappas_abs_1 _ Hk) as [-> ->].
  eexists _, _. split; [done|].
  apply add_loop_first_forbidden.
  - rewrite !not_elem_of_cons. repeat split; try lia. apply not_elem_of_nil.
  - apply list_elem_of_here.
  - apply list_elem_of_further, list_elem_of_here.
  - lia.
Qed.

Lemma add_ionisation_path_kappa_0 (hole : Hole.t) :
  Hole.kappa hole = 0 →
  Channels.add_ionisation_path hole Dict.empty = [].
Proof.
  intros Hk. unfold Channels.add_ionisation_path. rewrite Hk. reflexivity.
Qed.

Lemma init_ionisation_paths (w : World) (p1 p2 p3 p4 p5 : string)
    (hole : Hole.t) (ch : Channels.t) :
  Channels.init w p1 p2 p3 p4 p5 hole = Ok ch →
  Channels.ionisation_paths ch = Channels.add_ionisation_path hole Dict.empty
  ∧ Channels.hole ch = hole.
Proof.
  unfold Channels.init. intros H.
  repeat match type of H with
         | mbind _ ?r = _ => destruct r; simpl in H; [|discriminate]
         end.
  injection H as <-. done.
Qed.

Lemma add_ionisation_path_lookup (hole : Hole.t) (k : Z)
    (p : IonisationPath.t) :
  Dict.get (Channels.add_ionisation_path hole Dict.empty) k = Some p ↔
  k ≠ 0
  ∧ ∃ i : nat, final_kappas (Hole.kappa hole) false !! i = Some k
               ∧ p = IonisationPath.init k i.
Proof.
  assert (Hcases : Hole.kappa hole = 0 ∨ Z.abs (Hole.kappa hole) = 1
                   ∨ 2 ≤ Z.abs (Hole.kappa hole)) by lia.
  destruct Hcases as [H0 | [H1 | H2]].
  - rewrite add_ionisation_path_kappa_0 by done. rewrite H0.
    change (final_kappas 0 false) with [0; 0; 0]. simpl.
    split; [discriminate|]. intros [Hk (i & Hi & _)].
    destruct i as [|[|[|i]]]; by simplify_eq/=.
  - destruct (add_ionisation_path_one_forbidden _ H1)
      as (c1 & c2 & Hc & ->).
    rewrite Hc. pose proof (final_kappas_abs_1 _ H1) as [Hc' _].
    rewrite Hc in Hc'. injection Hc' as -> ->. simpl.
    repeat case_decide; subst.
    + split; [intros [= <-]; split; [lia|]; by exists 1%nat|].
      intros [_ (i & Hi & ->)].
      destruct i as [|[|[|i]]]; simplify_eq/=; (done || lia).
    + split; [intros [= <-]; split; [lia|]; by exists 2%nat|].
      intros [_ (i & Hi & ->)].
      destruct i as [|[|[|i]]]; simplify_eq/=; (done || lia).
    + split; [discriminate|]. intros [Hk (i & Hi & _)].
      destruct i as [|[|[|i]]]; simplify_eq/=; (done || lia).
  - destruct (add_ionisation_path_all_reachable _ H2)
      as (c0 & c1 & c2 & Hc & ->).
    rewrite Hc.
    assert (Hnz : c0 ≠ 0 ∧ c1 ≠ 0 ∧ c2 ≠ 0 ∧ c0 ≠ c1 ∧ c0 ≠ c2 ∧ c1 ≠ c2).
    { destruct (decide (0 < Hole.kappa hole)).
      - rewrite final_kappas_pos in Hc by done.
        injection Hc as <- <- <-. lia.
      - rewrite final_kappas_neg in Hc by lia.
        injection Hc as <- <- <-. lia. }
    destruct Hnz as (? & ? & ? & ? & ? & ?). simpl.
    repeat case_decide; subst.
    + split; [intros [= <-]; split; [done|]; by exists 0%nat|].
      intros [_ (i & Hi & ->)].
      destruct i as [|[|[|i]]]; simplify_eq/=; (done || lia).
    + split; [intros [= <-]; split; [done|]; by exists 1%nat|].
      intros [_ (i & Hi & ->)].
      destruct i as [|[|[|i]]]; simplify_eq/=; (done || lia).
    + split; [intros [= <-]; split; [done|]; by exists 2%nat|].
      intros [_ (i & Hi & ->)].
      destruct i as [|[|[|i]]]; simplify_eq/=; (done || lia).
    + split; [discriminate|]. intros [Hk (i & Hi & _)].
      destruct i as [|[|[|i]]]; simplify_eq/=; (done || lia).
Qed.

Lemma add_ionisation_path_keys (hole : Hole.t) :
  Dict.keys (Channels.add_ionisation_path hole Dict.empty)
  = final_kappas (Hole.kappa hole) true.
Proof.
  assert (Hcases : Hole.kappa hole = 0 ∨ Z.abs (Hole.kappa hole) = 1
                   ∨ 2 ≤ Z.abs (Hole.kappa hole)) by lia.
  destruct Hcases as [H0 | [H1 | H2]].
  - rewrite add_ionisation_path_kappa_0 by done. by rewrite H0.
  - destruct (add_ionisation_path_one_forbidden _ H1)
      as (c1 & c2 & Hc & ->).
    destruct (final_kappas_abs_1 _ H1) as [Hc' ->].
    rewrite Hc in Hc'. by injection Hc' as -> ->.
  - destruct (add_ionisation_path_all_reachable _ H2)
      as (c0 & c1 & c2 & Hc & ->).
    rewrite final_kappas_all_reachable by done. by rewrite Hc.
Qed.

Lemma add_ionisation_path_column_lt_3 (hole : Hole.t) (k : Z)
    (p : IonisationPath.t) :
  Dict.get (Channels.add_ionisation_path hole Dict.empty) k = Some p →
  (IonisationPath.column_index p < 3)%nat.
Proof.
  intros Hget. apply add_ionisation_path_lookup in Hget
    as [_ (i & Hi & ->)].
  apply lookup_lt_Some in Hi. by simpl in *.
Qed.



(** ** Per-channel accessors *)

Section accessors.
Variables (ch : Channels.t) (final_kappa : Z).

Lemma get_ionisation_path_present (p : IonisationPath.t) :
  Dict.get (Channels.ionisation_paths ch) final_kappa = Some p →
  Channels.get_ionisation_path ch final_kappa = Ok p.
Proof.
  intros Hget.
  unfold Channels.get_ionisation_path, Channels.assert_ionisation_path,
    Channels.check_ionisation_path, Dict.contains.
  by rewrite Hget.
Qed.

Hypothesis absent : final_kappa ∉ Dict.keys (Channels.ionisation_paths ch).

Lemma get_ionisation_path_absent :
  Channels.get_ionisation_path ch final_kappa
  = Raise (Channels.channel_not_found ch final_kappa).
Proof.
  apply dict_contains_false in absent.
  unfold Channels.get_ionisation_path, Channels.assert_ionisation_path,
    Channels.check_ionisation_path.
  by rewrite absent.
Qed.

Lemma get_raw_absent :
  Channels.get_raw_rate ch final_kappa
  = Raise (Channels.channel_not_found ch final_kappa)
  ∧ Channels.get_raw_amp_data ch final_kappa
    = Raise (Channels.channel_not_found ch final_kappa)
  ∧ Channels.get_raw_phaseF_data ch final_kappa
    = Raise (Channels.channel_not_found ch final_kappa)
  ∧ Channels.get_raw_phaseG_data ch final_kappa
    = Raise (Channels.channel_not_found ch final_kappa).
Proof.
  unfold Channels.get_raw_rate, Channels.get_raw_amp_data,
    Channels.get_raw_phaseF_data, Channels.get_raw_phaseG_data.
  by rewrite get_ionisation_path_absent.
Qed.
End accessors.

Lemma init_keys (w : World) (p1 p2 p3 p4 p5 : string) (hole : Hole.t)
    (ch : Channels.t) :
  Channels.init w p1 p2 p3 p4 p5 hole = Ok ch →
  Dict.keys (Channels.ionisation_paths ch)
  = final_kappas (Hole.kappa hole) true.
Proof.
  intros Hinit. destruct (init_ionisation_paths _ _ _ _ _ _ _ _ Hinit) as [-> _].
  apply add_ionisation_path_keys.
Qed.

(** C6. Every per-channel accessor of a [Channels] object raises the
    channel-not-found error for a final kappa that is not a key of the
    path dictionary, so for kappa 0 and for every kappa outside the
    reachable list of a constructed object; no data is returned.  For a
    key, [get_ionisation_path] returns the stored path. *)
Theorem accessors_channel_not_found (ch : Channels.t) (final_kappa : Z) :
  (final_kappa ∉ Dict.keys (Channels.ionisation_paths ch) →
   Channels.get_ionisation_path ch final_kappa
   = Raise (Channels.channel_not_found ch final_kappa)
   ∧ Channels.get_raw_rate ch final_kappa
     = Raise (Channels.channel_not_found ch final_kappa)
   ∧ Channels.get_raw_amp_data ch final_kappa
     = Raise (Channels.channel_not_found ch final_kappa)
   ∧ Channels.get_raw_phaseF_data ch final_kappa
     = Raise (Channels.channel_not_found ch final_kappa)
   ∧ Channels.get_raw_phaseG_data ch final_kappa
     = Raise (Channels.channel_not_found ch final_kappa))
  ∧ (∀ p : IonisationPath.t,
       Dict.get (Channels.ionisation_paths ch) final_kappa = Some p →
       Channels.get_ionisation_path ch final_kappa = Ok p)
  ∧ (final_kappa ∈ Dict.keys (Channels.ionisation_paths ch) →
     is_ok (Channels.get_ionisation_path ch final_kappa) = true)
  ∧ (∀ (w : World) (p1 p2 p3 p4 p5 : string) (hole : Hole.t),
       Channels.init w p1 p2 p3 p4 p5 hole = Ok ch →
       final_kappa = 0 ∨ final_kappa ∉ final_kappas (Hole.kappa hole) true →
       final_kappa ∉ Dict.keys (Channels.ionisation_paths ch)).
Proof.
  split; [|split; [|split]].
  - intros Habsent. split; [by apply get_ionisation_path_absent|].
    by apply get_raw_absent.
  - apply get_ionisation_path_present.
  - intros Hkey.
    destruct (Dict.get (Channels.ionisation_paths ch) final_kappa)
      as [p|] eqn:Hget.
    + by rewrite (get_ionisation_path_present _ _ _ Hget).
    + by apply dict_get_None in Hget.
  - intros w p1 p2 p3 p4 p5 hole Hinit Hk.
    rewrite (init_keys _ _ _ _ _ _ _ _ Hinit), elem_of_reachable.
    destruct Hk as [-> | Hk]; [tauto|].
    rewrite elem_of_reachable in Hk. tauto.
Qed.

Lemma accessors_channel_not_found_witness :
  ∃ ch : Channels.t,
    Sample.channels_in "out/pert_-1_2/" Sample.hole_2s = Ok ch
    ∧ (0 ∉ Dict.keys (Channels.ionisation_paths ch))
    ∧ Channels.get_raw_amp_data ch 0
      = Raise (Channels.channel_not_found ch 0)
    ∧ Channels.get_ionisation_path ch (-2) = Ok (IonisationPath.init (-2) 2).
Proof.
  destruct (Sample.channels_in "out/pert_-1_2/" Sample.hole_2s)
    as [ch|e] eqn:Hch; [|vm_compute in Hch; discriminate].
  exists ch. split; [reflexivity|].
  destruct (accessors_channel_not_found ch 0) as (H1 & _ & _ & H4).
  destruct (accessors_channel_not_found ch (-2)) as (_ & H2 & _ & _).
  assert (Hkey : 0 ∉ Dict.keys (Channels.ionisation_paths ch)).
  { apply (H4 _ _ _ _ _ _ _ Hch). by left. }
  split; [exact Hkey|]. split; [apply (H1 Hkey)|].
  apply H2. destruct (init_ionisation_paths _ _ _ _ _ _ _ _ Hch) as [-> _].
  apply add_ionisation_path_lookup. split; [lia|]. by exists 2%nat.
Defined.

(** C10. For the hole kappa 0 the candidates are [0, 0, 0] and the
    reachable list is empty.  The construction of a [Channels] object
    does not look at the kappa of the hole: it succeeds exactly when the
    five files load; for a hole of kappa 0 the object has an empty path
    dictionary and every per-channel accessor raises the
    channel-not-found error for every final kappa. *)
Theorem kappa_zero_hole_has_no_channel (w : World)
    (p1 p2 p3 p4 p5 : string) (hole : Hole.t) :
  Hole.kappa hole = 0 →
  final_kappas 0 false = [0; 0; 0]
  ∧ final_kappas 0 true = []
  ∧ (∀ hole' : Hole.t,
       is_ok (Channels.init w p1 p2 p3 p4 p5 hole)
       = is_ok (Channels.init w p1 p2 p3 p4 p5 hole'))
  ∧ (∀ ch : Channels.t,
       Channels.init w p1 p2 p3 p4 p5 hole = Ok ch →
       Channels.ionisation_paths ch = []
       ∧ ∀ final_kappa : Z,
           Channels.get_ionisation_path ch final_kappa
           = Raise (Channels.channel_not_found ch final_kappa)
           ∧ Channels.get_raw_rate ch final_kappa
             = Raise (Channels.channel_not_found ch final_kappa)
           ∧ Channels.get_raw_amp_data ch final_kappa
             = Raise (Channels.channel_not_found ch final_kappa)
           ∧ Channels.get_raw_phaseF_data ch final_kappa
             = Raise (Channels.channel_not_found ch final_kappa)
           ∧ Channels.get_raw_phaseG_data ch final_kappa
             = Raise (Channels.channel_not_found ch final_kappa)).
Proof.
  intros Hk. split; [reflexivity|]. split; [reflexivity|]. split.
  - intros hole'. unfold Channels.init.
    repeat match goal with
           | |- context [mbind _ (load_raw_data ?w ?p)] =>
               destruct (load_raw_data w p); simpl; [|reflexivity]
           end.
    reflexivity.
  - intros ch Hinit.
    destruct (init_ionisation_paths _ _ _ _ _ _ _ _ Hinit) as [Hpaths _].
    rewrite add_ionisation_path_kappa_0 in Hpaths by done.
    split; [done|]. intros final_kappa.
    assert (Habsent : final_kappa ∉ Dict.keys (Channels.ionisation_paths ch)).
    { rewrite Hpaths. apply not_elem_of_nil. }
    split; [by apply get_ionisation_path_absent|].
    by apply get_raw_absent.
Qed.

Lemma kappa_zero_hole_has_no_channel_witness :
  Hole.kappa Sample.hole_kappa_0 = 0
  ∧ ∃ ch : Channels.t,
      Sample.channels_in "out/pert_-1_2/" Sample.hole_kappa_0 = Ok ch
      ∧ Channels.ionisation_paths ch = []
      ∧ Channels.get_raw_rate ch 1 = Raise (Channels.channel_not_found ch 1).
Proof.
  split; [reflexivity|].
  destruct (Sample.channels_in "out/pert_-1_2/" Sample.hole_kappa_0)
    as [ch|e] eqn:Hch; [|vm_compute in Hch; discriminate].
  exists ch. split; [reflexivity|].
  destruct (kappa_zero_hole_has_no_channel Sample.world
              ("out/pert_-1_2/" +:+ "omega.dat")
              ("out/pert_-1_2/" +:+ "pcur_all.dat")
              ("out/pert_-1_2/" +:+ "amp_all.dat")
              ("out/pert_-1_2/" +:+ "phaseF_all.dat")
              ("out/pert_-1_2/" +:+ "phaseG_all.dat")
              Sample.hole_kappa_0 eq_refl) as (_ & _ & _ & H).
  destruct (H ch Hch) as [Hp Hacc].
  split; [exact Hp|]. apply (Hacc 1).
Defined.

(** ** Column indices and table widths *)

Lemma init_column_lt_3 (w : World) (p1 p2 p3 p4 p5 : string)
    (hole : Hole.t) (ch : Channels.t) (k : Z) (p : IonisationPath.t) :
  Channels.init w p1 p2 p3 p4 p5 hole = Ok ch →
  Dict.get (Channels.ionisation_paths ch) k = Some p →
  (IonisationPath.column_index p < 3)%nat.
Proof.
  intros Hinit. destruct (init_ionisation_paths _ _ _ _ _ _ _ _ Hinit) as [-> _].
  apply add_ionisation_path_column_lt_3.
Qed.

Lemma stored_width_3_in_range (w : World) (p1 p2 p3 p4 p5 : string)
    (hole : Hole.t) (ch : Channels.t) :
  Channels.init w p1 p2 p3 p4 p5 hole = Ok ch →
  stored_width ch 3 → column_index_in_range ch.
Proof.
  intros Hinit (Hr & Ha & Hf & Hg) k p Hget.
  rewrite Hr, Ha, Hf, Hg.
  pose proof (init_column_lt_3 _ _ _ _ _ _ _ _ _ _ Hinit Hget). done.
Qed.

(** C5, as the claim states it, fails for a hole with |kappa| = 1: with
    files whose width after the first column is the number of reachable
    channels (two), the channel of kappa -2 of the 2s hole has column
    index 2, which is not below the width 2, and [get_raw_rate] raises
    an [IndexError] for it. *)
Lemma column_index_out_of_range_counterexample :
  ∃ ch : Channels.t,
    Sample.channels_in "out/pert_-1_2/" Sample.hole_2s = Ok ch
    ∧ stored_width ch
        (length (final_kappas (Hole.kappa Sample.hole_2s) true))
    ∧ ¬ column_index_in_range ch
    ∧ Channels.get_raw_rate ch (-2) = Raise IndexError.
Proof.
  eexists. split; [vm_compute; reflexivity|].
  split; [by vm_compute|]. split; [|by vm_compute].
  intros Hrange.
  destruct (Hrange (-2) (IonisationPath.init (-2) 2)) as [Hlt _];
    [by vm_compute|].
  vm_compute in Hlt. lia.
Qed.

(** C5, amended.  For every constructed [Channels] object and every key
    of its path dictionary the column index is below 3, the number of
    candidate slots; so it is below the width of each stored rate, amp,
    phaseF and phaseG table whenever the raw files have three columns
    after their first one.  When the width after the first column is
    the number of reachable channels, the bound holds for every hole
    whose |kappa| is not 1. *)
Theorem column_index_within_candidate_slots (w : World)
    (p1 p2 p3 p4 p5 : string) (hole : Hole.t) (ch : Channels.t) :
  Channels.init w p1 p2 p3 p4 p5 hole = Ok ch →
  (∀ (k : Z) (p : IonisationPath.t),
     Dict.get (Channels.ionisation_paths ch) k = Some p →
     (0 ≤ IonisationPath.column_index p < 3)%nat)
  ∧ (stored_width ch 3 → column_index_in_range ch)
  ∧ (stored_width ch (length (final_kappas (Hole.kappa hole) true)) →
     Z.abs (Hole.kappa hole) ≠ 1 →
     column_index_in_range ch).
Proof.
  intros Hinit. split; [|split].
  - intros k p Hget. split; [lia|]. eapply init_column_lt_3; eauto.
  - by eapply stored_width_3_in_range.
  - intros Hwidth Hk.
    destruct (decide (Hole.kappa hole = 0)) as [H0|H0].
    + intros k p Hget.
      destruct (init_ionisation_paths _ _ _ _ _ _ _ _ Hinit) as [Hp _].
      rewrite Hp, add_ionisation_path_kappa_0 in Hget by done. done.
    + rewrite final_kappas_all_reachable in Hwidth by lia.
      eapply stored_width_3_in_range; [done|].
      destruct (decide (0 < Hole.kappa hole)).
      * by rewrite final_kappas_pos in Hwidth by done.
      * by rewrite final_kappas_neg in Hwidth by lia.
Qed.

Lemma column_index_within_candidate_slots_witness :
  ∃ ch : Channels.t,
    Sample.channels_in "out/pert_-2_1/" Sample.hole_2p = Ok ch
    ∧ stored_width ch 3
    ∧ column_index_in_range ch.
Proof.
  eexists. split; [vm_compute; reflexivity|].
  split; [by vm_compute|].
  match goal with
  | |- column_index_in_range ?c =>
      destruct (column_index_within_candidate_slots Sample.world
                  "out/pert_-2_1/omega.dat" "out/pert_-2_1/pcur_all.dat"
                  "out/pert_-2_1/amp_all.dat" "out/pert_-2_1/phaseF_all.dat"
                  "out/pert_-2_1/phaseG_all.dat" Sample.hole_2p c)
        as (_ & H & _); [vm_compute; reflexivity|]
  end.
  apply H. by vm_compute.
Defined.

(** ** The registry: loading a hole *)

Ltac run_method :=
  unfold OnePhoton.assert_hole_load, OnePhoton.assert_diag_data_load,
    OnePhoton.load_diag_eigenvalues, OnePhoton.load_diag_matrix_elements;
  unfold OnePhoton.is_hole_loaded;
  unfold mbind, OnePhoton.M_bind, mret, OnePhoton.M_ret, OnePhoton.get_self,
    OnePhoton.print, OnePhoton.emit, OnePhoton.pass, OnePhoton.lift,
    OnePhoton.new, OnePhoton.modify_self, OnePhoton.put_self,
    OnePhoton.raise, mbind, OnePhoton.M_bind, mret, OnePhoton.M_ret;
  cbn -[Channels.init Hole._load_binding_energy pretty String.append
        Np.loadtxt Np.ndarray_column Np.ndarray_last_two_columns
        Np.re_plus_1j_im].

Lemma load_hole_eq (w : World) (n k : Z) (data : string)
    (opt : OnePhoton.load_hole_options) (s : OnePhoton.state) :
  OnePhoton.load_hole w n k data opt s =
  let o := OnePhoton.self s in
  let is_loaded := bool_decide (is_Some (OnePhoton.channels o !! (k, n))) in
  if negb is_loaded || OnePhoton.should_reload opt then
    let evs := Resolved.notices (OnePhoton.atom_name o) n k is_loaded opt
                 ++ Resolved.loader_calls data n k opt in
    match Resolved.parsed w (OnePhoton.atom_name o) data n k opt with
    | Ok c => (Ok tt, Resolved.registered s n k evs c)
    | Raise e =>
        (Raise e,
         OnePhoton.State o (OnePhoton.next_id s) (OnePhoton.trace s ++ evs))
    end
  else (Ok tt, s).
Proof.
  destruct s as [o nid tr].
  unfold OnePhoton.load_hole, Resolved.parsed, Resolved.hole,
    Resolved.registered, Resolved.notices, Resolved.loader_calls,
    Resolved.omega, Resolved.pcur, Resolved.amp, Resolved.phaseF,
    Resolved.phaseG, Resolved.hf_energies, Resolved.sp_ekin,
    Resolved.pert_path.
  run_method.
  destruct (bool_decide _) eqn:Hl;
    destruct (OnePhoton.should_reload opt) eqn:Hr;
    run_method; try reflexivity.
  all: destruct (OnePhoton.not_num (OnePhoton.binding_energy opt)) eqn:Hb;
    run_method.
  all: repeat match goal with
       | |- context [Hole._load_binding_energy ?a ?b ?c ?d ?e] =>
           destruct (Hole._load_binding_energy a b c d e) eqn:?; run_method
       | |- context [Channels.init ?a ?b ?c ?d ?e ?f ?g] =>
           destruct (Channels.init a b c d e f g) eqn:?; run_method
       end.
  all: rewrite <- ?app_assoc, ?app_nil_r; reflexivity.
Qed.

Lemma load_hole_performed (w : World) (n k : Z) (data : string)
    (opt : OnePhoton.load_hole_options) (s s' : OnePhoton.state) :
  OnePhoton.channels (OnePhoton.self s) !! (k, n) = None
  ∨ OnePhoton.should_reload opt = true →
  OnePhoton.load_hole w n k data opt s = (Ok tt, s') →
  ∃ c : Channels.t,
    Resolved.parsed w (OnePhoton.atom_name (OnePhoton.self s)) data n k opt
    = Ok c
    ∧ s' = Resolved.registered s n k
             (Resolved.notices (OnePhoton.atom_name (OnePhoton.self s)) n k
                (bool_decide
                   (is_Some (OnePhoton.channels (OnePhoton.self s) !! (k, n))))
                opt
              ++ Resolved.loader_calls data n k opt) c.
Proof.
  intros Hperf. rewrite load_hole_eq. cbv zeta.
  assert (Hb : negb (bool_decide
                       (is_Some (OnePhoton.channels (OnePhoton.self s)
                                   !! (k, n))))
               || OnePhoton.should_reload opt = true).
  { destruct Hperf as [-> | ->].
    - rewrite bool_decide_eq_false_2; [done|]. by intros [? ?].
    - apply orb_true_r. }
  rewrite Hb.
  destruct (Resolved.parsed _ _ _ _ _ _) as [c|e]; [|discriminate].
  intros [= <-]. by exists c.
Qed.

Lemma load_hole_parsed (w : World) (n k : Z) (data : string)
    (opt : OnePhoton.load_hole_options) (s : OnePhoton.state)
    (c : Channels.t) :
  OnePhoton.channels (OnePhoton.self s) !! (k, n) = None
  ∨ OnePhoton.should_reload opt = true →
  Resolved.parsed w (OnePhoton.atom_name (OnePhoton.self s)) data n k opt
  = Ok c →
  OnePhoton.load_hole w n k data opt s
  = (Ok tt,
     Resolved.registered s n k
       (Resolved.notices (OnePhoton.atom_name (OnePhoton.self s)) n k
          (bool_decide
             (is_Some (OnePhoton.channels (OnePhoton.self s) !! (k, n))))
          opt
        ++ Resolved.loader_calls data n k opt) c).
Proof.
  intros Hperf Hc. rewrite load_hole_eq. cbv zeta. rewrite Hc.
  destruct Hperf as [-> | ->].
  - rewrite bool_decide_eq_false_2; [done|]. by intros [? ?].
  - by rewrite orb_true_r.
Qed.

(** C1 (the code departs from the claim).  [load_hole] asks
    [is_hole_loaded] about (hole_kappa, n_qn), the two arguments in the
    wrong order, while the object is registered under (n_qn,
    hole_kappa).  So for n different from kappa, and (kappa, n) not a
    registered key, a second identical call with [should_reload=False]
    is not skipped: it parses the files again, registers a new object
    (a new identity) under (n, kappa) and increments [num_channels]
    again. *)
Theorem load_hole_twice_loads_twice (w : World) (n kappa : Z)
    (data : string) (opt : OnePhoton.load_hole_options)
    (s0 s1 : OnePhoton.state) :
  n ≠ kappa →
  OnePhoton.channels (OnePhoton.self s0) !! (kappa, n) = None →
  OnePhoton.should_reload opt = false →
  OnePhoton.load_hole w n kappa data opt s0 = (Ok tt, s1) →
  ∃ (c : Channels.t) (s2 : OnePhoton.state),
    OnePhoton.load_hole w n kappa data opt s1 = (Ok tt, s2)
    ∧ OnePhoton.channels (OnePhoton.self s1) !! (n, kappa)
      = Some (Object (OnePhoton.next_id s0) c)
    ∧ OnePhoton.channels (OnePhoton.self s2) !! (n, kappa)
      = Some (Object (S (OnePhoton.next_id s0)) c)
    ∧ OnePhoton.num_channels (OnePhoton.self s1)
      = OnePhoton.num_channels (OnePhoton.self s0) + 1
    ∧ OnePhoton.num_channels (OnePhoton.self s2)
      = OnePhoton.num_channels (OnePhoton.self s0) + 2.
Proof.
  intros Hne Hfree Hreload Hfirst.
  destruct (load_hole_performed _ _ _ _ _ _ _ (or_introl Hfree) Hfirst)
    as (c & Hc & ->).
  exists c. eexists. split.
  - apply load_hole_parsed; [left|exact Hc].
    simpl. rewrite lookup_insert_ne; [done|]. intros [= -> ]. done.
  - simpl. rewrite !lookup_insert_eq. repeat split; try done. lia.
Qed.

Lemma load_hole_twice_loads_twice_witness :
  (2 : Z) ≠ -1
  ∧ OnePhoton.channels (OnePhoton.self Sample.neon) !! (-1, 2) = None
  ∧ ∃ (s1 s2 : OnePhoton.state),
      OnePhoton.load_hole Sample.world 2 (-1) "out/"
        (Sample.with_binding_energy (Sample.q 1)) Sample.neon = (Ok tt, s1)
      ∧ OnePhoton.load_hole Sample.world 2 (-1) "out/"
          (Sample.with_binding_energy (Sample.q 1)) s1 = (Ok tt, s2)
      ∧ id <$> OnePhoton.channels (OnePhoton.self s1) !! (2, -1) = Some 0%nat
      ∧ id <$> OnePhoton.channels (OnePhoton.self s2) !! (2, -1) = Some 1%nat
      ∧ OnePhoton.num_channels (OnePhoton.self s1) = 1
      ∧ OnePhoton.num_channels (OnePhoton.self s2) = 2.
Proof.
  split; [lia|]. split; [reflexivity|].
  destruct (OnePhoton.load_hole Sample.world 2 (-1) "out/"
              (Sample.with_binding_energy (Sample.q 1)) Sample.neon)
    as [[[]|e] s1] eqn:Hfirst; [|vm_compute in Hfirst; discriminate].
  destruct (load_hole_twice_loads_twice Sample.world 2 (-1) "out/"
              (Sample.with_binding_energy (Sample.q 1)) Sample.neon s1)
    as (c & s2 & Hsecond & H1 & H2 & H3 & H4);
    [lia | reflexivity | reflexivity | exact Hfirst |].
  exists s1, s2. split; [reflexivity|]. split; [exact Hsecond|].
  rewrite H1, H2, H3, H4. repeat split.
Defined.

(** C4 (the code departs from the claim in its second half).  A call
    of [load_hole] with [should_reload=True] for a registered (n, kappa)
    replaces the registered object by a new one, parsed from the files
    as they are at that call.  The counter is incremented by every load
    that is carried out, the reload included: after a reload
    [num_channels] is one more than before, while the set of registered
    holes is unchanged. *)
Theorem reload_replaces_and_counts_again (w : World) (n kappa : Z)
    (data : string) (opt : OnePhoton.load_hole_options)
    (s s' : OnePhoton.state) (old : object Channels.t) :
  OnePhoton.channels (OnePhoton.self s) !! (n, kappa) = Some old →
  OnePhoton.should_reload opt = true →
  OnePhoton.load_hole w n kappa data opt s = (Ok tt, s') →
  ∃ c : Channels.t,
    Resolved.parsed w (OnePhoton.atom_name (OnePhoton.self s)) data n kappa
      opt = Ok c
    ∧ OnePhoton.channels (OnePhoton.self s') !! (n, kappa)
      = Some (Object (OnePhoton.next_id s) c)
    ∧ dom (OnePhoton.channels (OnePhoton.self s'))
      = dom (OnePhoton.channels (OnePhoton.self s))
    ∧ OnePhoton.num_channels (OnePhoton.self s')
      = OnePhoton.num_channels (OnePhoton.self s) + 1.
Proof.
  intros Hold Hreload Hload.
  destruct (load_hole_performed _ _ _ _ _ _ _ (or_intror Hreload) Hload)
    as (c & Hc & ->).
  exists c. split; [exact Hc|]. simpl. rewrite lookup_insert_eq.
  repeat split. rewrite dom_insert_L.
  assert ((n, kappa) ∈ dom (OnePhoton.channels (OnePhoton.self s))).
  { apply elem_of_dom. by exists old. }
  apply subseteq_union_1_L. by apply singleton_subseteq_l.
Qed.

Lemma reload_replaces_and_counts_again_witness :
  OnePhoton.load_hole Sample.world 2 (-1) "out/"
    (Sample.with_binding_energy (Sample.q 1)) Sample.neon
  = (Ok tt, Sample.after_load)
  ∧ OnePhoton.should_reload (Sample.reloading (Sample.q 1)) = true
  ∧ OnePhoton.load_hole Sample.world' 2 (-1) "out/"
      (Sample.reloading (Sample.q 1)) Sample.after_load
    = (Ok tt, Sample.after_reload)
  ∧ (Np.ncols ∘ Channels.raw_rate_data ∘ val
     <$> OnePhoton.channels (OnePhoton.self Sample.after_load) !! (2, -1))
    = Some 2%nat
  ∧ (Np.ncols ∘ Channels.raw_rate_data ∘ val
     <$> OnePhoton.channels (OnePhoton.self Sample.after_reload) !! (2, -1))
    = Some 3%nat
  ∧ dom (OnePhoton.channels (OnePhoton.self Sample.after_reload))
    = dom (OnePhoton.channels (OnePhoton.self Sample.after_load))
  ∧ size (OnePhoton.channels (OnePhoton.self Sample.after_reload)) = 1%nat
  ∧ OnePhoton.num_channels (OnePhoton.self Sample.after_load) = 1
  ∧ OnePhoton.num_channels (OnePhoton.self Sample.after_reload) = 2.
Proof.
  assert (Hreload :
            OnePhoton.load_hole Sample.world' 2 (-1) "out/"
              (Sample.reloading (Sample.q 1)) Sample.after_load
            = (Ok tt, Sample.after_reload)) by (vm_compute; reflexivity).
  destruct (OnePhoton.channels (OnePhoton.self Sample.after_load) !! (2, -1))
    as [old|] eqn:Hold; [|vm_compute in Hold; discriminate].
  destruct (reload_replaces_and_counts_again Sample.world' 2 (-1) "out/"
              (Sample.reloading (Sample.q 1)) Sample.after_load
              Sample.after_reload old Hold eq_refl Hreload)
    as (c & _ & _ & Hdom & Hnum).
  split; [vm_compute; reflexivity|]. split; [reflexivity|].
  split; [exact Hreload|].
  split; [rewrite <- Hold; vm_compute; reflexivity|].
  split; [vm_compute; reflexivity|].
  split; [exact Hdom|].
  split; [vm_compute; reflexivity|].
  split; [reflexivity|].
  rewrite Hnum. reflexivity.
Defined.

(** C9 (the code departs from the claim for a supplied value of 0).  A
    load that is carried out adds to the trace the reload notice, if
    any, and then the calls to the binding-energy loader.  The loader is
    not called for a supplied binding energy other than 0; it is called
    when no binding energy is supplied, and also when the supplied value
    is 0, since the test is [not binding_energy]. *)
Theorem binding_energy_loader_calls (w : World) (n kappa : Z)
    (data : string) (opt : OnePhoton.load_hole_options)
    (s s' : OnePhoton.state) (r : result unit) :
  OnePhoton.channels (OnePhoton.self s) !! (kappa, n) = None
  ∨ OnePhoton.should_reload opt = true →
  OnePhoton.load_hole w n kappa data opt s = (r, s') →
  OnePhoton.trace s'
  = OnePhoton.trace s
      ++ Resolved.notices (OnePhoton.atom_name (OnePhoton.self s)) n kappa
           (bool_decide
              (is_Some (OnePhoton.channels (OnePhoton.self s) !! (kappa, n))))
           opt
      ++ Resolved.loader_calls data n kappa opt
  ∧ (∀ e : Qc,
       OnePhoton.binding_energy opt = Some e → e ≠ 0%Qc →
       Resolved.loader_calls data n kappa opt = [])
  ∧ (OnePhoton.binding_energy opt = None
     ∨ OnePhoton.binding_energy opt = Some 0%Qc →
     Resolved.loader_calls data n kappa opt
     = [BindingEnergyLoaded (Resolved.hf_energies data kappa opt)
          (Resolved.omega data n kappa opt)
          (Resolved.sp_ekin data n kappa opt)]).
Proof.
  intros Hperf Hload. split; [|split].
  - rewrite load_hole_eq in Hload. cbv zeta in Hload.
    assert (Hb : negb (bool_decide
                         (is_Some (OnePhoton.channels (OnePhoton.self s)
                                     !! (kappa, n))))
                 || OnePhoton.should_reload opt = true).
    { destruct Hperf as [-> | ->].
      - rewrite bool_decide_eq_false_2; [done|]. by intros [? ?].
      - apply orb_true_r. }
    rewrite Hb in Hload.
    destruct (Resolved.parsed _ _ _ _ _ _); by injection Hload as <- <-.
  - intros e He Hnz. unfold Resolved.loader_calls. rewrite He. simpl.
    by rewrite bool_decide_eq_false_2.
  - intros [He | He]; unfold Resolved.loader_calls; by rewrite He.
Qed.

Lemma binding_energy_loader_calls_witness :
  OnePhoton.channels (OnePhoton.self Sample.neon) !! (-1, 2) = None
  ∧ OnePhoton.load_hole Sample.world 2 (-1) "out/"
      (Sample.with_binding_energy (Sample.q 0)) Sample.neon
    = (Ok tt, Sample.after_load_0)
  ∧ OnePhoton.trace Sample.after_load_0
    = [BindingEnergyLoaded "out/hf_wavefunctions/hf_energies_kappa_-1.dat"
         "out/pert_-1_2/omega.dat" "out/second_photon/energy_rpa_-1_2.dat"]
  ∧ (Hole.binding_energy ∘ Channels.hole ∘ val
     <$> OnePhoton.channels (OnePhoton.self Sample.after_load_0) !! (2, -1))
    = Some (Some (Sample.q 2)).
Proof.
  assert (Hload :
            OnePhoton.load_hole Sample.world 2 (-1) "out/"
              (Sample.with_binding_energy (Sample.q 0)) Sample.neon
            = (Ok tt, Sample.after_load_0)) by (vm_compute; reflexivity).
  destruct (binding_energy_loader_calls Sample.world 2 (-1) "out/"
              (Sample.with_binding_energy (Sample.q 0)) Sample.neon
              Sample.after_load_0 (Ok tt) (or_introl eq_refl) Hload)
    as (Htrace & _ & Hcalled).
  split; [reflexivity|]. split; [exact Hload|]. split.
  - rewrite Htrace, Hcalled by (right; reflexivity). reflexivity.
  - vm_compute. reflexivity.
Defined.

(** ** The registry: diagonal data *)

Lemma load_diag_data_eq (w : World) (data : string)
    (pe pm : option string) (reload : bool) (s : OnePhoton.state) :
  OnePhoton.load_diag_data w data pe pm reload s =
  let o := OnePhoton.self s in
  if negb (OnePhoton.diag_loaded o) || reload then
    let tr := OnePhoton.trace s ++ Resolved.diag_notices o reload in
    match Resolved.eigenvalues w (Resolved.eigenvalues_path data pe) with
    | Raise e => (Raise e, OnePhoton.State o (OnePhoton.next_id s) tr)
    | Ok ev =>
        match Resolved.matrix_elements w
                (Resolved.matrix_elements_path data pm) with
        | Raise e =>
            (Raise e,
             OnePhoton.State (OnePhoton.set_diag_eigenvalues ev o)
               (OnePhoton.next_id s) tr)
        | Ok me =>
            (Ok tt,
             OnePhoton.State
               (OnePhoton.set_diag_loaded true
                  (OnePhoton.set_diag_matrix_elements me
                     (OnePhoton.set_diag_eigenvalues ev o)))
               (OnePhoton.next_id s) tr)
        end
    end
  else (Ok tt, s).
Proof.
  destruct s as [o nid tr].
  unfold OnePhoton.load_diag_data, Resolved.eigenvalues,
    Resolved.matrix_elements, Resolved.diag_notices,
    Resolved.eigenvalues_path, Resolved.matrix_elements_path.
  run_method.
  destruct (OnePhoton.diag_loaded o) eqn:Hl; destruct reload;
    run_method; try reflexivity.
  all: repeat match goal with
       | |- context [Np.loadtxt ?a ?b] =>
           destruct (Np.loadtxt a b) eqn:?; run_method
       | |- context [Np.ndarray_last_two_columns ?a] =>
           destruct (Np.ndarray_last_two_columns a) eqn:?; run_method
       | |- context [Np.ndarray_column ?a ?b] =>
           destruct (Np.ndarray_column a b) eqn:?; run_method
       end.
  all: rewrite ?app_nil_r; reflexivity.
Qed.

Lemma re_plus_1j_im_rows (rs : list (list Qc)) (i j : list Qc → nat) :
  Np.re_plus_1j_im ((λ r, nth (i r) r 0%Qc) <$> rs)
    ((λ r, nth (j r) r 0%Qc) <$> rs)
  = (λ r, Np.Complex (nth (i r) r 0%Qc) (nth (j r) r 0%Qc)) <$> rs.
Proof.
  unfold Np.re_plus_1j_im. induction rs as [|r rs IH]; [done|].
  rewrite !fmap_cons. cbn [zip_with]. rewrite IH. f_equal.
  unfold Np.cadd, Np.cmul, Np.of_real, Np.j1.
  cbn [Np.real Np.imag]. f_equal; ring.
Qed.

Lemma rectangular_Forall (c : nat) (rs : list (list Qc)) :
  Np.rectangular c rs = true → Forall (λ r, length r = c) rs.
Proof.
  unfold Np.rectangular. rewrite forallb_forall, Forall_forall.
  intros H r Hr. by apply Nat.eqb_eq, H.
Qed.

Lemma loadtxt_Array2 (fs : gmap string Np.text) (path : string)
    (t : Np.table) :
  Np.loadtxt fs path = Ok (Np.Array2 t) →
  ∃ lines : Np.text,
    fs !! path = Some lines
    ∧ Np.rows t = filter (λ r, r ≠ []) lines
    ∧ Forall (λ r, length r = Np.ncols t) (Np.rows t)
    ∧ (2 ≤ Np.ncols t)%nat
    ∧ (2 ≤ length (Np.rows t))%nat.
Proof.
  unfold Np.loadtxt. destruct (fs !! path) as [lines|]; [|discriminate].
  remember (filter (λ r, r ≠ []) lines) as rs eqn:Hrs.
  assert (Hnonblank : Forall (λ r, r ≠ []) rs).
  { subst rs. apply list.Forall_forall. intros r Hr.
    by apply list_elem_of_filter in Hr as [? _]. }
  destruct (Np.rectangular (Np.width rs) rs) eqn:Hrect; [|discriminate].
  simpl. destruct rs as [|r1 [|r2 rs]]; [discriminate| |].
  - destruct r1 as [|x [|y r1]]; discriminate.
  - destruct (Nat.eqb (Np.width (r1 :: r2 :: rs)) 1) eqn:Hc; [discriminate|].
    intros Ht. injection Ht as <-. exists lines. cbn [Np.rows Np.ncols].
    split; [done|]. split; [done|].
    split; [by apply rectangular_Forall in Hrect|].
    apply Nat.eqb_neq in Hc. apply list.Forall_cons in Hnonblank as [Hr1 _].
    simpl in Hc. destruct r1; [done|]. simpl in *. split; lia.
Qed.

Lemma eigenvalues_Ok (w : World) (path : string) (v : list Np.complex) :
  Resolved.eigenvalues w path = Ok v →
  ∃ lines : Np.text,
    files w !! path = Some lines
    ∧ Forall (λ r, (2 ≤ length r)%nat) (filter (λ r, r ≠ []) lines)
    ∧ v = first_two <$> filter (λ r, r ≠ []) lines.
Proof.
  unfold Resolved.eigenvalues. intros H.
  destruct (Np.loadtxt (files w) path) as [[x|xs|t]|e] eqn:Hload;
    try discriminate.
  destruct (loadtxt_Array2 _ _ _ Hload) as (lines & Hf & Hrows & Hrect & Hc & _).
  exists lines. split; [done|]. rewrite <- Hrows. split.
  { eapply list.Forall_impl; [exact Hrect|]. simpl. intros r ->. done. }
  simpl in H. unfold Np.column in H.
  rewrite !decide_True in H by lia. simpl in H. injection H as <-.
  apply (re_plus_1j_im_rows _ (λ _, 0%nat) (λ _, 1%nat)).
Qed.

Lemma last_two_column_0 (rs : list (list Qc)) :
  Forall (λ r, (2 ≤ length r)%nat) rs →
  (λ r, nth 0 r 0%Qc) <$> ((λ r, drop (length r - 2) r) <$> rs)
  = (λ r, nth (length r - 2) r 0%Qc) <$> rs.
Proof.
  intros Hlen. rewrite <- list_fmap_compose. apply Forall_fmap_ext_1.
  eapply list.Forall_impl; [exact Hlen|]. simpl. intros r Hr.
  rewrite !nth_lookup, lookup_drop. do 2 f_equal. lia.
Qed.

Lemma last_two_column_1 (rs : list (list Qc)) :
  Forall (λ r, (2 ≤ length r)%nat) rs →
  (λ r, nth 1 r 0%Qc) <$> ((λ r, drop (length r - 2) r) <$> rs)
  = (λ r, nth (length r - 1) r 0%Qc) <$> rs.
Proof.
  intros Hlen. rewrite <- list_fmap_compose. apply Forall_fmap_ext_1.
  eapply list.Forall_impl; [exact Hlen|]. simpl. intros r Hr.
  rewrite !nth_lookup, lookup_drop. do 2 f_equal. lia.
Qed.

Lemma matrix_elements_Ok (w : World) (path : string)
    (v : list Np.complex) :
  Resolved.matrix_elements w path = Ok v →
  ∃ lines : Np.text,
    files w !! path = Some lines
    ∧ Forall (λ r, (2 ≤ length r)%nat) (filter (λ r, r ≠ []) lines)
    ∧ v = final_two <$> filter (λ r, r ≠ []) lines.
Proof.
  unfold Resolved.matrix_elements. intros H.
  destruct (Np.loadtxt (files w) path) as [[x|xs|t]|e] eqn:Hload;
    try discriminate.
  destruct (loadtxt_Array2 _ _ _ Hload) as (lines & Hf & Hrows & Hrect & Hc & _).
  exists lines. split; [done|]. rewrite <- Hrows.
  assert (Hlen : Forall (λ r, (2 ≤ length r)%nat) (Np.rows t)).
  { eapply list.Forall_impl; [exact Hrect|]. simpl. intros r ->. done. }
  split; [done|].
  unfold mbind, result_bind, Np.ndarray_last_two_columns, Np.ndarray_column,
    Np.column, Np.last_two_columns in H.
  cbn [Np.ncols Np.rows] in H.
  rewrite !decide_True in H by lia. injection H as <-.
  rewrite last_two_column_0, last_two_column_1 by done.
  apply (re_plus_1j_im_rows _ (λ r, length r - 2)%nat (λ r, length r - 1)%nat).
Qed.

Lemma load_diag_data_performed (w : World) (data : string)
    (pe pm : option string) (reload : bool) (s s' : OnePhoton.state) :
  OnePhoton.diag_loaded (OnePhoton.self s) = false ∨ reload = true →
  OnePhoton.load_diag_data w data pe pm reload s = (Ok tt, s') →
  ∃ ev me : list Np.complex,
    Resolved.eigenvalues w (Resolved.eigenvalues_path data pe) = Ok ev
    ∧ Resolved.matrix_elements w (Resolved.matrix_elements_path data pm)
      = Ok me
    ∧ OnePhoton.diag_eigenvalues (OnePhoton.self s') = Some ev
    ∧ OnePhoton.diag_matrix_elements (OnePhoton.self s') = Some me
    ∧ OnePhoton.diag_loaded (OnePhoton.self s') = true
    ∧ OnePhoton.channels (OnePhoton.self s')
      = OnePhoton.channels (OnePhoton.self s).
Proof.
  intros Hperf. rewrite load_diag_data_eq. cbv zeta.
  assert (Hb : negb (OnePhoton.diag_loaded (OnePhoton.self s)) || reload
               = true).
  { destruct Hperf as [-> | ->]; [done | apply orb_true_r]. }
  rewrite Hb.
  destruct (Resolved.eigenvalues _ _) as [ev|e]; [|discriminate].
  destruct (Resolved.matrix_elements _ _) as [me|e]; [|discriminate].
  intros [= <-]. by exists ev, me.
Qed.

(** C8. After a diagonal load that was carried out and returned, the
    stored eigenvalues are, row by row in the order of the file, the
    first column plus i times the second column of the eigenvalues
    file, and the stored matrix elements are, row by row, the
    last-but-one column plus i times the last column of the
    matrix-elements file, whatever columns come before. *)
Theorem load_diag_data_arrays (w : World) (data : string)
    (pe pm : option string) (reload : bool) (s s' : OnePhoton.state) :
  OnePhoton.diag_loaded (OnePhoton.self s) = false ∨ reload = true →
  OnePhoton.load_diag_data w data pe pm reload s = (Ok tt, s') →
  ∃ le lm : Np.text,
    files w !! Resolved.eigenvalues_path data pe = Some le
    ∧ files w !! Resolved.matrix_elements_path data pm = Some lm
    ∧ Forall (λ r, (2 ≤ length r)%nat) (filter (λ r, r ≠ []) le)
    ∧ Forall (λ r, (2 ≤ length r)%nat) (filter (λ r, r ≠ []) lm)
    ∧ OnePhoton.diag_eigenvalues (OnePhoton.self s')
      = Some (first_two <$> filter (λ r, r ≠ []) le)
    ∧ OnePhoton.diag_matrix_elements (OnePhoton.self s')
      = Some (final_two <$> filter (λ r, r ≠ []) lm).
Proof.
  intros Hperf Hload.
  destruct (load_diag_data_performed _ _ _ _ _ _ _ Hperf Hload)
    as (ev & me & Hev & Hme & -> & -> & _).
  destruct (eigenvalues_Ok _ _ _ Hev) as (le & Hle & Hlen_e & ->).
  destruct (matrix_elements_Ok _ _ _ Hme) as (lm & Hlm & Hlen_m & ->).
  by exists le, lm.
Qed.

Lemma load_diag_data_arrays_witness :
  OnePhoton.diag_loaded (OnePhoton.self Sample.neon) = false
  ∧ OnePhoton.load_diag_data Sample.world "out/" None None false Sample.neon
    = (Ok tt, Sample.after_diag)
  ∧ OnePhoton.diag_eigenvalues (OnePhoton.self Sample.after_diag)
    = Some (first_two <$> Sample.eigenvalues)
  ∧ OnePhoton.diag_matrix_elements (OnePhoton.self Sample.after_diag)
    = Some (final_two <$> Sample.matrix_elements)
  ∧ first_two <$> Sample.eigenvalues
    = [Np.Complex (Sample.q 1) (Sample.q 2);
       Np.Complex (Sample.q 3) (Sample.q 4)]
  ∧ final_two <$> Sample.matrix_elements
    = [Np.Complex (Sample.q 1) (Sample.q 2);
       Np.Complex (Sample.q 3) (Sample.q 4)].
Proof.
  assert (Hload :
            OnePhoton.load_diag_data Sample.world "out/" None None false
              Sample.neon = (Ok tt, Sample.after_diag))
    by (vm_compute; reflexivity).
  destruct (load_diag_data_arrays Sample.world "out/" None None false
              Sample.neon Sample.after_diag (or_introl eq_refl) Hload)
    as (le & lm & Hle & Hlm & _ & _ & He & Hm).
  assert (Hle' : le = Sample.eigenvalues).
  { vm_compute in Hle. by injection Hle as <-. }
  assert (Hlm' : lm = Sample.matrix_elements).
  { vm_compute in Hlm. by injection Hlm as <-. }
  subst le lm.
  split; [reflexivity|]. split; [exact Hload|].
  split; [exact He|]. split; [exact Hm|].
  split; reflexivity.
Defined.

(** ** The registry: queries *)

Lemma load_hole_skipped (w : World) (n k : Z) (data : string)
    (opt : OnePhoton.load_hole_options) (s : OnePhoton.state) :
  is_Some (OnePhoton.channels (OnePhoton.self s) !! (k, n)) →
  OnePhoton.should_reload opt = false →
  OnePhoton.load_hole w n k data opt s = (Ok tt, s).
Proof.
  intros Hsome Hreload. rewrite load_hole_eq. cbv zeta.
  by rewrite bool_decide_eq_true_2, Hreload.
Qed.


Lemma load_diag_data_flag (w : World) (data : string)
    (pe pm : option string) (reload : bool) (s s' : OnePhoton.state)
    (r : result unit) :
  OnePhoton.load_diag_data w data pe pm reload s = (r, s') →
  OnePhoton.diag_loaded (OnePhoton.self s')
  = (if is_ok r then true else OnePhoton.diag_loaded (OnePhoton.self s)).
Proof.
  rewrite load_diag_data_eq. cbv zeta.
  destruct (OnePhoton.diag_loaded (OnePhoton.self s)) eqn:Hl;
    destruct reload; simpl.
  all: try (intros [= <- <-]; by rewrite Hl).
  all: destruct (Resolved.eigenvalues _ _);
    [destruct (Resolved.matrix_elements _ _)|];
    intros [= <- <-]; simpl; by rewrite ?Hl.
Qed.

Section queries.
Variables (s : OnePhoton.state) (n kappa : Z).

Lemma get_channels_for_hole_absent :
  OnePhoton.channels (OnePhoton.self s) !! (n, kappa) = None →
  OnePhoton.get_channels_for_hole n kappa s
  = (Raise (OnePhoton.hole_not_loaded (OnePhoton.self s) n kappa), s)
  ∧ OnePhoton.get_channel_labels_for_hole n kappa s
    = (Raise (OnePhoton.hole_not_loaded (OnePhoton.self s) n kappa), s).
Proof.
  intros Hnone.
  unfold OnePhoton.get_channel_labels_for_hole,
    OnePhoton.get_channels_for_hole.
  run_method. rewrite Hnone.
  rewrite bool_decide_eq_false_2; [done|]. by intros [? ?].
Qed.

Lemma labels_foldl (c : Channels.t) (ks : list Z) (acc : list string) :
  (∀ k, k ∈ ks → k ∈ Dict.keys (Channels.ionisation_paths c)) →
  foldl
    (λ (channel_labels : result (list string)) (final_kappa : Z),
       channel_labels ← channel_labels;
       ionisation_path ← Channels.get_ionisation_path c final_kappa;
       mret (channel_labels
               ++ [Hole.name (Channels.get_hole_object c) +:+ " to "
                     +:+ IonisationPath.name ionisation_path]))
    (Ok acc) ks
  = Ok (acc ++ (label c <$> ks)).
Proof.
  revert acc. induction ks as [|k ks IH]; intros acc Hks.
  - simpl. by rewrite app_nil_r.
  - cbn [foldl].
    destruct (Dict.get (Channels.ionisation_paths c) k) as [p|] eqn:Hget.
    + rewrite (get_ionisation_path_present _ _ _ Hget).
      cbn [mbind result_bind mret result_ret].
      rewrite IH by (intros; apply Hks; by apply list_elem_of_further).
      rewrite fmap_cons, <- app_assoc. unfold label at 2. by rewrite Hget.
    + apply dict_get_None in Hget. destruct Hget. apply Hks.
      apply list_elem_of_here.
Qed.

Lemma get_channels_for_hole_present (c : object Channels.t) :
  OnePhoton.channels (OnePhoton.self s) !! (n, kappa) = Some c →
  OnePhoton.get_channels_for_hole n kappa s = (Ok c, s)
  ∧ OnePhoton.get_channel_labels_for_hole n kappa s
    = (Ok (labels (val c)), s).
Proof.
  intros Hsome.
  unfold OnePhoton.get_channel_labels_for_hole,
    OnePhoton.get_channels_for_hole.
  run_method.
  repeat (rewrite ?Hsome, ?bool_decide_eq_true_2 by done; cbn beta iota).
  split; [done|]. f_equal.
  by apply (labels_foldl (val c) _ []).
Qed.

Lemma get_diag_not_loaded :
  OnePhoton.diag_loaded (OnePhoton.self s) = false →
  OnePhoton.get_diag_eigenvalues s
  = (Raise (OnePhoton.diag_data_not_loaded (OnePhoton.self s)), s)
  ∧ OnePhoton.get_diag_matrix_elements s
    = (Raise (OnePhoton.diag_data_not_loaded (OnePhoton.self s)), s).
Proof.
  intros Hl.
  unfold OnePhoton.get_diag_eigenvalues, OnePhoton.get_diag_matrix_elements.
  run_method. by rewrite Hl.
Qed.

Lemma get_diag_loaded :
  OnePhoton.diag_loaded (OnePhoton.self s) = true →
  OnePhoton.get_diag_eigenvalues s
  = (Ok (OnePhoton.diag_eigenvalues (OnePhoton.self s)), s)
  ∧ OnePhoton.get_diag_matrix_elements s
    = (Ok (OnePhoton.diag_matrix_elements (OnePhoton.self s)), s).
Proof.
  intros Hl.
  unfold OnePhoton.get_diag_eigenvalues, OnePhoton.get_diag_matrix_elements.
  run_method. by rewrite Hl.
Qed.
End queries.



(** * Further properties *)

(** ** Selection rules *)






(** ** What the accessors return *)

Lemma load_raw_data_Ok (w : World) (path : string) (t : Np.table) :
  load_raw_data w path = Ok t →
  ∃ rs : Np.text,
    files w !! path = Some rs
    ∧ t = Np.Table (Np.width rs) rs
    ∧ Forall (λ r, length r = Np.width rs) rs.
Proof.
  unfold load_raw_data. destruct (files w !! path) as [rs|]; [|discriminate].
  destruct (Np.rectangular (Np.width rs) rs) eqn:Hrect; [|discriminate].
  intros [= <-]. exists rs. split; [done|]. split; [done|].
  by apply rectangular_Forall.
Qed.

Lemma init_tables (w : World) (p1 p2 p3 p4 p5 : string) (hole : Hole.t)
    (ch : Channels.t) :
  Channels.init w p1 p2 p3 p4 p5 hole = Ok ch →
  ∃ t1 t2 t3 t4 t5 : Np.table,
    load_raw_data w p1 = Ok t1
    ∧ load_raw_data w p2 = Ok t2
    ∧ load_raw_data w p3 = Ok t3
    ∧ load_raw_data w p4 = Ok t4
    ∧ load_raw_data w p5 = Ok t5
    ∧ Channels.raw_omega_data ch = t1
    ∧ Channels.raw_rate_data ch = Np.drop_first_column t2
    ∧ Channels.raw_amp_data ch = Np.drop_first_column t3
    ∧ Channels.raw_phaseF_data ch = Np.drop_first_column t4
    ∧ Channels.raw_phaseG_data ch = Np.drop_first_column t5.
Proof.
  unfold Channels.init. intros H.
  destruct (load_raw_data w p1) as [t1|]; [|discriminate].
  destruct (load_raw_data w p2) as [t2|]; [|discriminate].
  destruct (load_raw_data w p3) as [t3|]; [|discriminate].
  destruct (load_raw_data w p4) as [t4|]; [|discriminate].
  destruct (load_raw_data w p5) as [t5|]; [|discriminate].
  simpl in H. injection H as <-. by exists t1, t2, t3, t4, t5.
Qed.

Lemma column_after_first (rs : Np.text) (i : nat) :
  Np.column (Np.drop_first_column (Np.Table (Np.width rs) rs)) i
  = if decide (S i < Np.width rs)%nat
    then Ok (file_column (S i) rs)
    else Raise IndexError.
Proof.
  unfold Np.column, Np.drop_first_column, file_column. cbn [Np.ncols Np.rows].
  destruct (decide (i < Nat.pred (Np.width rs))%nat),
    (decide (S i < Np.width rs)%nat); try lia; [|done].
  f_equal. rewrite <- list_fmap_compose. apply list_fmap_ext.
  intros _ r _. simpl. by rewrite !nth_lookup, lookup_drop.
Qed.

(** X4. A per-channel accessor of a constructed [Channels] object
    returns, for a key with column index i, column i + 1 of the rows of
    its file (the first column of the file is the one left out), one
    entry per row, when the file has more than i + 1 columns, and raises
    [IndexError] otherwise. *)
Theorem accessor_returns_file_column (w : World)
    (p1 p2 p3 p4 p5 : string) (hole : Hole.t) (ch : Channels.t)
    (final_kappa : Z) (p : IonisationPath.t) :
  Channels.init w p1 p2 p3 p4 p5 hole = Ok ch →
  Dict.get (Channels.ionisation_paths ch) final_kappa = Some p →
  let i := IonisationPath.column_index p in
  let column_of (rs : Np.text) : result (list Qc) :=
    if decide (S i < Np.width rs)%nat
    then Ok (file_column (S i) rs) else Raise IndexError in
  ∃ rate amp phaseF phaseG : Np.text,
    files w !! p2 = Some rate
    ∧ files w !! p3 = Some amp
    ∧ files w !! p4 = Some phaseF
    ∧ files w !! p5 = Some phaseG
    ∧ Channels.get_raw_rate ch final_kappa = column_of rate
    ∧ Channels.get_raw_amp_data ch final_kappa = column_of amp
    ∧ Channels.get_raw_phaseF_data ch final_kappa = column_of phaseF
    ∧ Channels.get_raw_phaseG_data ch final_kappa = column_of phaseG.
Proof.
  intros Hinit Hget i column_of. subst i column_of.
  destruct (init_tables _ _ _ _ _ _ _ _ Hinit)
    as (t1 & t2 & t3 & t4 & t5 & _ & H2 & H3 & H4 & H5
        & _ & Hr & Ha & Hf & Hg).
  destruct (load_raw_data_Ok _ _ _ H2) as (rs2 & Hf2 & -> & _).
  destruct (load_raw_data_Ok _ _ _ H3) as (rs3 & Hf3 & -> & _).
  destruct (load_raw_data_Ok _ _ _ H4) as (rs4 & Hf4 & -> & _).
  destruct (load_raw_data_Ok _ _ _ H5) as (rs5 & Hf5 & -> & _).
  exists rs2, rs3, rs4, rs5. repeat (split; [done|]).
  unfold Channels.get_raw_rate, Channels.get_raw_amp_data,
    Channels.get_raw_phaseF_data, Channels.get_raw_phaseG_data.
  rewrite (get_ionisation_path_present _ _ _ Hget).
  cbn [mbind result_bind]. rewrite Hr, Ha, Hf, Hg.
  by rewrite !column_after_first.
Qed.

Lemma accessor_returns_file_column_witness :
  ∃ ch : Channels.t,
    Sample.channels_in "out/pert_-2_1/" Sample.hole_2p = Ok ch
    ∧ Dict.get (Channels.ionisation_paths ch) 2
      = Some (IonisationPath.init 2 1)
    ∧ Channels.get_raw_rate ch 2 = Ok [Sample.q 20; Sample.q 21].
Proof.
  destruct (Sample.channels_in "out/pert_-2_1/" Sample.hole_2p)
    as [ch|e] eqn:Hch; [|vm_compute in Hch; discriminate].
  exists ch. split; [reflexivity|].
  assert (Hget : Dict.get (Channels.ionisation_paths ch) 2
                 = Some (IonisationPath.init 2 1)).
  { destruct (init_ionisation_paths _ _ _ _ _ _ _ _ Hch) as [-> _].
    apply add_ionisation_path_lookup. split; [lia|]. by exists 1%nat. }
  split; [exact Hget|].
  destruct (accessor_returns_file_column _ _ _ _ _ _ _ _ _ _ Hch Hget)
    as (rate & amp & phaseF & phaseG & Hrate & _ & _ & _ & -> & _).
  vm_compute in Hrate. injection Hrate as <-. vm_compute. reflexivity.
Defined.

Lemma init_key_lookup (w : World) (p1 p2 p3 p4 p5 : string) (hole : Hole.t)
    (ch : Channels.t) (k : Z) :
  Channels.init w p1 p2 p3 p4 p5 hole = Ok ch →
  k ∈ final_kappas (Hole.kappa hole) true →
  ∃ i : nat,
    Dict.get (Channels.ionisation_paths ch) k = Some (IonisationPath.init k i)
    ∧ (i < 3)%nat.
Proof.
  intros Hinit Hk.
  rewrite <- (init_keys _ _ _ _ _ _ _ _ Hinit) in Hk.
  destruct (Dict.get (Channels.ionisation_paths ch) k) as [p|] eqn:Hget.
  - pose proof (init_column_lt_3 _ _ _ _ _ _ _ _ _ _ Hinit Hget) as Hlt.
    destruct (init_ionisation_paths _ _ _ _ _ _ _ _ Hinit) as [Hp _].
    rewrite Hp in Hget.
    apply add_ionisation_path_lookup in Hget as [_ (i & _ & ->)].
    by exists i.
  - by apply dict_get_None in Hget.
Qed.

(** X5. When the stored tables of a constructed [Channels] object have
    three columns, each per-channel accessor returns data for exactly
    the reachable final kappas of the hole, and raises for every other
    kappa. *)
Theorem accessors_succeed_on_reachable (w : World)
    (p1 p2 p3 p4 p5 : string) (hole : Hole.t) (ch : Channels.t)
    (final_kappa : Z) :
  Channels.init w p1 p2 p3 p4 p5 hole = Ok ch →
  stored_width ch 3 →
  let reachable := final_kappa ∈ final_kappas (Hole.kappa hole) true in
  (reachable ↔ is_ok (Channels.get_ionisation_path ch final_kappa) = true)
  ∧ (reachable ↔ is_ok (Channels.get_raw_rate ch final_kappa) = true)
  ∧ (reachable ↔ is_ok (Channels.get_raw_amp_data ch final_kappa) = true)
  ∧ (reachable ↔ is_ok (Channels.get_raw_phaseF_data ch final_kappa) = true)
  ∧ (reachable ↔ is_ok (Channels.get_raw_phaseG_data ch final_kappa) = true).
Proof.
  intros Hinit (Hr & Ha & Hf & Hg) reachable. subst reachable.
  destruct (decide (final_kappa ∈ final_kappas (Hole.kappa hole) true))
    as [Hin|Hout].
  - destruct (init_key_lookup _ _ _ _ _ _ _ _ _ Hinit Hin) as (i & Hget & Hi).
    unfold Channels.get_raw_rate, Channels.get_raw_amp_data,
      Channels.get_raw_phaseF_data, Channels.get_raw_phaseG_data.
    rewrite (get_ionisation_path_present _ _ _ Hget).
    cbn [mbind result_bind]. unfold Np.column. rewrite Hr, Ha, Hf, Hg.
    cbn [IonisationPath.column_index IonisationPath.init].
    rewrite !decide_True by done. cbn [is_ok]. tauto.
  - assert (Habs : final_kappa ∉ Dict.keys (Channels.ionisation_paths ch)).
    { by rewrite (init_keys _ _ _ _ _ _ _ _ Hinit). }
    rewrite (get_ionisation_path_absent _ _ Habs).
    destruct (get_raw_absent _ _ Habs) as (-> & -> & -> & ->).
    simpl. repeat split; (done || discriminate).
Qed.

Lemma accessors_succeed_on_reachable_witness :
  ∃ ch : Channels.t,
    Sample.channels_in "out/padded_-1_2/" Sample.hole_2s = Ok ch
    ∧ stored_width ch 3
    ∧ is_ok (Channels.get_raw_rate ch (-2)) = true
    ∧ is_ok (Channels.get_raw_rate ch 0) = false.
Proof.
  eexists. split; [vm_compute; reflexivity|].
  split; [by vm_compute|].
  match goal with
  | |- is_ok (Channels.get_raw_rate ?c _) = true ∧ _ =>
      destruct (accessors_succeed_on_reachable Sample.world
                  "out/padded_-1_2/omega.dat" "out/padded_-1_2/pcur_all.dat"
                  "out/padded_-1_2/amp_all.dat"
                  "out/padded_-1_2/phaseF_all.dat"
                  "out/padded_-1_2/phaseG_all.dat" Sample.hole_2s c (-2))
        as (_ & Hrate & _); [vm_compute; reflexivity | by vm_compute |]
  end.
  split; [|by vm_compute].
  apply Hrate. apply list_elem_of_further, list_elem_of_here.
Defined.

(** ** Labels *)

Lemma labels_of_init (w : World) (p1 p2 p3 p4 p5 : string) (hole : Hole.t)
    (ch : Channels.t) :
  Channels.init w p1 p2 p3 p4 p5 hole = Ok ch →
  labels ch
  = channel_label (Hole.name hole) <$> final_kappas (Hole.kappa hole) true.
Proof.
  intros Hinit. unfold labels.
  rewrite (init_keys _ _ _ _ _ _ _ _ Hinit).
  apply list.Forall_fmap_ext_1, list.Forall_forall. intros k Hk.
  destruct (init_key_lookup _ _ _ _ _ _ _ _ _ Hinit Hk) as (i & Hget & _).
  unfold label. rewrite Hget.
  by destruct (init_ionisation_paths _ _ _ _ _ _ _ _ Hinit) as [_ ->].
Qed.

Lemma parsed_hole (w : World) (atom data : string) (n k : Z)
    (opt : OnePhoton.load_hole_options) (c : Channels.t) :
  Resolved.parsed w atom data n k opt = Ok c →
  Hole.n (Channels.hole c) = n
  ∧ Hole.kappa (Channels.hole c) = k
  ∧ Hole.atom_name (Channels.hole c) = atom
  ∧ Hole.name (Channels.hole c) = construct_hole_name atom n k
  ∧ Dict.keys (Channels.ionisation_paths c) = final_kappas k true
  ∧ labels c
    = channel_label (construct_hole_name atom n k) <$> final_kappas k true.
Proof.
  unfold Resolved.parsed. intros H.
  destruct (Resolved.hole w atom data n k opt) as [h|] eqn:Hh; [|discriminate].
  cbn [mbind result_bind] in H.
  assert (Hfields : Hole.n h = n ∧ Hole.kappa h = k ∧ Hole.atom_name h = atom
                    ∧ Hole.name h = construct_hole_name atom n k).
  { unfold Resolved.hole in Hh.
    destruct (OnePhoton.not_num _); [|by injection Hh as <-].
    unfold Hole._load_binding_energy in Hh.
    destruct (binding_energies w !! _); [|discriminate].
    by injection Hh as <-. }
  destruct Hfields as (Hn & Hk & Ha & Hname).
  pose proof (labels_of_init _ _ _ _ _ _ _ _ H) as Hl.
  pose proof (init_keys _ _ _ _ _ _ _ _ H) as Hkeys.
  destruct (init_ionisation_paths _ _ _ _ _ _ _ _ H) as [_ ->].
  rewrite Hname, Hk in Hl. rewrite Hk in Hkeys. done.
Qed.

(** X6. After a load of the hole (n, kappa) that was carried out and
    returned, [get_channel_labels_for_hole] returns one label per
    reachable final kappa of the hole, in the order of the candidates,
    each made of the name of the hole, " to " and the name of the
    channel. *)
Theorem labels_of_loaded_hole (w : World) (n kappa : Z) (data : string)
    (opt : OnePhoton.load_hole_options) (s s' : OnePhoton.state) :
  OnePhoton.channels (OnePhoton.self s) !! (kappa, n) = None
  ∨ OnePhoton.should_reload opt = true →
  OnePhoton.load_hole w n kappa data opt s = (Ok tt, s') →
  OnePhoton.get_channel_labels_for_hole n kappa s'
  = (Ok (channel_label
           (construct_hole_name (OnePhoton.atom_name (OnePhoton.self s))
              n kappa)
         <$> final_kappas kappa true), s').
Proof.
  intros Hperf Hload.
  destruct (load_hole_performed _ _ _ _ _ _ _ Hperf Hload) as (c & Hc & Hs).
  destruct (parsed_hole _ _ _ _ _ _ _ Hc) as (_ & _ & _ & _ & _ & <-).
  apply (get_channels_for_hole_present s' n kappa
           (Object (OnePhoton.next_id s) c)).
  rewrite Hs. simpl. apply lookup_insert_eq.
Qed.

Lemma labels_of_loaded_hole_witness :
  OnePhoton.channels (OnePhoton.self Sample.neon) !! (-1, 2) = None
  ∧ OnePhoton.load_hole Sample.world 2 (-1) "out/"
      (Sample.with_binding_energy (Sample.q 1)) Sample.neon
    = (Ok tt, Sample.after_load)
  ∧ (OnePhoton.get_channel_labels_for_hole 2 (-1) Sample.after_load).1
    = Ok ["Ne 2s_{1/2} to p_{1/2}"; "Ne 2s_{1/2} to p_{3/2}"].
Proof.
  assert (Hload :
            OnePhoton.load_hole Sample.world 2 (-1) "out/"
              (Sample.with_binding_energy (Sample.q 1)) Sample.neon
            = (Ok tt, Sample.after_load)) by (vm_compute; reflexivity).
  split; [reflexivity|]. split; [exact Hload|].
  rewrite (labels_of_loaded_hole Sample.world 2 (-1) "out/"
             (Sample.with_binding_energy (Sample.q 1)) Sample.neon
             Sample.after_load (or_introl eq_refl) Hload).
  vm_compute. reflexivity.
Defined.

(** ** Loads and the rest of the registry *)

(** X7. A call of [load_hole] that raises leaves the registry as it
    was: the channel mapping, the counter and the diagonal data are
    unchanged, and no object was allocated. *)
Theorem failed_load_hole_changes_nothing (w : World) (n kappa : Z)
    (data : string) (opt : OnePhoton.load_hole_options)
    (s s' : OnePhoton.state) (e : exn) :
  OnePhoton.load_hole w n kappa data opt s = (Raise e, s') →
  OnePhoton.self s' = OnePhoton.self s
  ∧ OnePhoton.next_id s' = OnePhoton.next_id s.
Proof.
  rewrite load_hole_eq. cbv zeta.
  destruct (negb _ || _); [|discriminate].
  destruct (Resolved.parsed _ _ _ _ _ _); [discriminate|].
  by intros [= _ <-].
Qed.

Lemma failed_load_hole_changes_nothing_witness :
  ∃ (e : exn) (s' : OnePhoton.state),
    OnePhoton.load_hole Sample2.empty_world 2 (-1) "out/"
      (Sample.with_binding_energy (Sample.q 1)) Sample.after_load
    = (Raise e, s')
    ∧ OnePhoton.self s' = OnePhoton.self Sample.after_load.
Proof.
  destruct (OnePhoton.load_hole Sample2.empty_world 2 (-1) "out/"
              (Sample.with_binding_energy (Sample.q 1)) Sample.after_load)
    as [[[]|e] s'] eqn:Hload; [vm_compute in Hload; discriminate|].
  exists e, s'. split; [reflexivity|].
  apply (failed_load_hole_changes_nothing _ _ _ _ _ _ _ _ Hload).
Defined.

(** X8. Whatever its outcome, a call of [load_hole] for (n, kappa)
    leaves the objects registered under every other key, the diagonal
    data and its flag, the atom name and the photon energy as they
    were. *)
Theorem load_hole_frame (w : World) (n kappa : Z) (data : string)
    (opt : OnePhoton.load_hole_options) (s : OnePhoton.state) :
  let s' := (OnePhoton.load_hole w n kappa data opt s).2 in
  (∀ key : Z * Z,
     key ≠ (n, kappa) →
     OnePhoton.channels (OnePhoton.self s') !! key
     = OnePhoton.channels (OnePhoton.self s) !! key)
  ∧ OnePhoton.diag_eigenvalues (OnePhoton.self s')
    = OnePhoton.diag_eigenvalues (OnePhoton.self s)
  ∧ OnePhoton.diag_matrix_elements (OnePhoton.self s')
    = OnePhoton.diag_matrix_elements (OnePhoton.self s)
  ∧ OnePhoton.diag_loaded (OnePhoton.self s')
    = OnePhoton.diag_loaded (OnePhoton.self s)
  ∧ OnePhoton.atom_name (OnePhoton.self s')
    = OnePhoton.atom_name (OnePhoton.self s)
  ∧ OnePhoton.g_omega_IR (OnePhoton.self s')
    = OnePhoton.g_omega_IR (OnePhoton.self s).
Proof.
  rewrite load_hole_eq. cbv zeta.
  destruct (negb _ || _); [|done].
  destruct (Resolved.parsed _ _ _ _ _ _); [|done].
  simpl. split; [|done]. intros key Hkey. by rewrite lookup_insert_ne.
Qed.

(** X9. The check that skips a load looks at the key with quantum
    number and kappa exchanged.  So once a hole was loaded as (a, b), a
    call of [load_hole] for (b, a) without [should_reload] returns
    without loading anything, whatever the files, and the queries for
    (b, a) still raise the hole-not-loaded error. *)
Theorem exchanged_hole_is_skipped (w w' : World) (a b : Z)
    (data data' : string) (opt opt' : OnePhoton.load_hole_options)
    (s0 s1 : OnePhoton.state) :
  a ≠ b →
  OnePhoton.channels (OnePhoton.self s0) !! (b, a) = None →
  OnePhoton.load_hole w a b data opt s0 = (Ok tt, s1) →
  OnePhoton.should_reload opt' = false →
  OnePhoton.load_hole w' b a data' opt' s1 = (Ok tt, s1)
  ∧ OnePhoton.get_channels_for_hole b a s1
    = (Raise (OnePhoton.hole_not_loaded (OnePhoton.self s1) b a), s1)
  ∧ OnePhoton.get_channel_labels_for_hole b a s1
    = (Raise (OnePhoton.hole_not_loaded (OnePhoton.self s1) b a), s1).
Proof.
  intros Hne Hfree Hload Hreload.
  destruct (load_hole_performed _ _ _ _ _ _ _ (or_introl Hfree) Hload)
    as (c & _ & Hs).
  assert (Hab : OnePhoton.channels (OnePhoton.self s1) !! (a, b)
                = Some (Object (OnePhoton.next_id s0) c)).
  { rewrite Hs. simpl. apply lookup_insert_eq. }
  assert (Hba : OnePhoton.channels (OnePhoton.self s1) !! (b, a) = None).
  { rewrite Hs. simpl. rewrite lookup_insert_ne; [done|]. by intros [= ->]. }
  split.
  - apply load_hole_skipped; [|done]. by rewrite Hab.
  - by apply get_channels_for_hole_absent.
Qed.

Lemma exchanged_hole_is_skipped_witness :
  (3 : Z) ≠ 2
  ∧ OnePhoton.load_hole Sample.world 3 2 "out/"
      (Sample.with_binding_energy (Sample.q 1)) Sample.neon
    = (Ok tt, Sample2.after_3d)
  ∧ OnePhoton.load_hole Sample.world 2 3 "out/"
      (Sample.with_binding_energy (Sample.q 1)) Sample2.after_3d
    = (Ok tt, Sample2.after_3d)
  ∧ is_ok (OnePhoton.get_channels_for_hole 2 3 Sample2.after_3d).1 = false.
Proof.
  assert (Hload :
            OnePhoton.load_hole Sample.world 3 2 "out/"
              (Sample.with_binding_energy (Sample.q 1)) Sample.neon
            = (Ok tt, Sample2.after_3d)) by (vm_compute; reflexivity).
  destruct (exchanged_hole_is_skipped Sample.world Sample.world 3 2
              "out/" "out/" (Sample.with_binding_energy (Sample.q 1))
              (Sample.with_binding_energy (Sample.q 1))
              Sample.neon Sample2.after_3d)
    as (Hskip & Hget & _); [lia | reflexivity | exact Hload | reflexivity |].
  split; [lia|]. split; [exact Hload|]. split; [exact Hskip|].
  by rewrite Hget.
Defined.

(** X10. The reload notice depends on the same exchanged key: a reload
    of a registered hole (n, kappa) prints no notice when (kappa, n) is
    not a registered key; the trace only gains the calls to the
    binding-energy loader. *)
Theorem reload_prints_no_notice (w : World) (n kappa : Z) (data : string)
    (opt : OnePhoton.load_hole_options) (s s' : OnePhoton.state)
    (r : result unit) (old : object Channels.t) :
  OnePhoton.channels (OnePhoton.self s) !! (n, kappa) = Some old →
  OnePhoton.channels (OnePhoton.self s) !! (kappa, n) = None →
  OnePhoton.should_reload opt = true →
  OnePhoton.load_hole w n kappa data opt s = (r, s') →
  OnePhoton.trace s'
  = OnePhoton.trace s ++ Resolved.loader_calls data n kappa opt.
Proof.
  intros _ Hfree Hreload. rewrite load_hole_eq. cbv zeta.
  rewrite Hfree, Hreload. rewrite bool_decide_eq_false_2 by (by intros [? ?]).
  simpl. unfold Resolved.notices. simpl.
  destruct (Resolved.parsed _ _ _ _ _ _); by intros [= _ <-].
Qed.

Lemma reload_prints_no_notice_witness :
  is_Some (OnePhoton.channels (OnePhoton.self Sample.after_load) !! (2, -1))
  ∧ OnePhoton.channels (OnePhoton.self Sample.after_load) !! (-1, 2) = None
  ∧ OnePhoton.load_hole Sample.world' 2 (-1) "out/"
      (Sample.reloading (Sample.q 1)) Sample.after_load
    = (Ok tt, Sample.after_reload)
  ∧ OnePhoton.trace Sample.after_reload = [].
Proof.
  assert (Hreload :
            OnePhoton.load_hole Sample.world' 2 (-1) "out/"
              (Sample.reloading (Sample.q 1)) Sample.after_load
            = (Ok tt, Sample.after_reload)) by (vm_compute; reflexivity).
  destruct (OnePhoton.channels (OnePhoton.self Sample.after_load) !! (2, -1))
    as [old|] eqn:Hold; [|vm_compute in Hold; discriminate].
  split; [by exists old|]. split; [reflexivity|]. split; [exact Hreload|].
  rewrite (reload_prints_no_notice Sample.world' 2 (-1) "out/"
             (Sample.reloading (Sample.q 1)) Sample.after_load
             Sample.after_reload (Ok tt) old Hold eq_refl eq_refl Hreload).
  reflexivity.
Defined.

(** ** Diagonal data: repeated and failing loads *)

(** X11. Once a call of [load_diag_data] has returned, every later call
    without [should_reload] returns without reading anything and leaves
    the state as it is, whatever its paths and whatever the files hold
    by then. *)
Theorem load_diag_data_only_once (w w' : World) (data data' : string)
    (pe pm pe' pm' : option string) (reload : bool)
    (s s1 : OnePhoton.state) :
  OnePhoton.load_diag_data w data pe pm reload s = (Ok tt, s1) →
  OnePhoton.load_diag_data w' data' pe' pm' false s1 = (Ok tt, s1).
Proof.
  intros Hload.
  pose proof (load_diag_data_flag _ _ _ _ _ _ _ _ Hload) as Hflag.
  simpl in Hflag. rewrite load_diag_data_eq. cbv zeta. by rewrite Hflag.
Qed.

Lemma load_diag_data_only_once_witness :
  OnePhoton.load_diag_data Sample.world "out/" None None false Sample.neon
  = (Ok tt, Sample.after_diag)
  ∧ OnePhoton.load_diag_data Sample2.empty_world "elsewhere/" None None
      false Sample.after_diag
    = (Ok tt, Sample.after_diag).
Proof.
  assert (Hload :
            OnePhoton.load_diag_data Sample.world "out/" None None false
              Sample.neon = (Ok tt, Sample.after_diag))
    by (vm_compute; reflexivity).
  split; [exact Hload|].
  apply (load_diag_data_only_once _ _ _ _ _ _ _ _ _ _ _ Hload).
Defined.

Lemma loadtxt_missing (fs : gmap string Np.text) (path : string) :
  fs !! path = None → Np.loadtxt fs path = Raise (FileNotFoundError path).
Proof. unfold Np.loadtxt, Np.text in *. by intros ->. Qed.

(** X12. A reload of the diagonal data is not all-or-nothing: when the
    eigenvalues file loads and the matrix-elements file is missing, the
    call raises [FileNotFoundError], yet the stored eigenvalues are
    already the new ones while the stored matrix elements are the old
    ones, and the accessors go on returning this mixture. *)
Theorem failed_diag_reload_mixes_data (w : World) (data : string)
    (pe pm : option string) (s : OnePhoton.state)
    (ev : list Np.complex) :
  OnePhoton.diag_loaded (OnePhoton.self s) = true →
  Resolved.eigenvalues w (Resolved.eigenvalues_path data pe) = Ok ev →
  files w !! Resolved.matrix_elements_path data pm = None →
  ∃ s' : OnePhoton.state,
    OnePhoton.load_diag_data w data pe pm true s
    = (Raise (FileNotFoundError (Resolved.matrix_elements_path data pm)), s')
    ∧ OnePhoton.get_diag_eigenvalues s' = (Ok (Some ev), s')
    ∧ OnePhoton.get_diag_matrix_elements s'
      = (Ok (OnePhoton.diag_matrix_elements (OnePhoton.self s)), s').
Proof.
  intros Hflag Hev Hmissing.
  assert (Hme : Resolved.matrix_elements w
                  (Resolved.matrix_elements_path data pm)
                = Raise (FileNotFoundError
                           (Resolved.matrix_elements_path data pm))).
  { unfold Resolved.matrix_elements.
    by rewrite (loadtxt_missing _ _ Hmissing). }
  eexists. rewrite load_diag_data_eq. cbv zeta.
  rewrite Hflag, Hev, Hme. cbn [negb orb]. split; [reflexivity|].
  apply (get_diag_loaded
           (OnePhoton.State
              (OnePhoton.set_diag_eigenvalues ev (OnePhoton.self s))
              (OnePhoton.next_id s)
              (OnePhoton.trace s
                 ++ Resolved.diag_notices (OnePhoton.self s) true))).
  exact Hflag.
Qed.

Lemma failed_diag_reload_mixes_data_witness :
  OnePhoton.diag_loaded (OnePhoton.self Sample.after_diag) = true
  ∧ ∃ s' : OnePhoton.state,
      (OnePhoton.load_diag_data Sample2.world_without_matrix_elements "out/"
         None None true Sample.after_diag).2 = s'
      ∧ (OnePhoton.get_diag_eigenvalues s').1
        = Ok (Some [Np.Complex (Sample.q 5) (Sample.q 6);
                    Np.Complex (Sample.q 7) (Sample.q 8)])
      ∧ (OnePhoton.get_diag_matrix_elements s').1
        = Ok (Some [Np.Complex (Sample.q 1) (Sample.q 2);
                    Np.Complex (Sample.q 3) (Sample.q 4)]).
Proof.
  split; [reflexivity|].
  destruct (failed_diag_reload_mixes_data
              Sample2.world_without_matrix_elements "out/" None None
              Sample.after_diag
              [Np.Complex (Sample.q 5) (Sample.q 6);
               Np.Complex (Sample.q 7) (Sample.q 8)])
    as (s' & Hload & He & Hm);
    [reflexivity | vm_compute; reflexivity | reflexivity |].
  exists s'. split; [by rewrite Hload|].
  split; [by rewrite He|]. rewrite Hm. vm_compute. reflexivity.
Defined.

(** X13. A diagonal load raises [IndexError], and stores nothing, when
    the eigenvalues file has at most one non-blank line: [np.loadtxt]
    then returns an array of fewer than two dimensions, which cannot be
    indexed by column. *)
Theorem short_eigenvalues_file_fails (w : World) (data : string)
    (pe pm : option string) (reload : bool) (s : OnePhoton.state)
    (lines : Np.text) :
  OnePhoton.diag_loaded (OnePhoton.self s) = false ∨ reload = true →
  files w !! Resolved.eigenvalues_path data pe = Some lines →
  (length (filter (λ r, r ≠ []) lines) ≤ 1)%nat →
  ∃ s' : OnePhoton.state,
    OnePhoton.load_diag_data w data pe pm reload s = (Raise IndexError, s')
    ∧ OnePhoton.self s' = OnePhoton.self s.
Proof.
  intros Hperf Hfile Hshort. eexists.
  rewrite load_diag_data_eq. cbv zeta.
  assert (Hb : negb (OnePhoton.diag_loaded (OnePhoton.self s)) || reload
               = true).
  { destruct Hperf as [-> | ->]; [done | apply orb_true_r]. }
  rewrite Hb.
  assert (Hev : Resolved.eigenvalues w (Resolved.eigenvalues_path data pe)
                = Raise IndexError).
  { unfold Resolved.eigenvalues, Np.loadtxt, Np.text in *. rewrite Hfile.
    destruct (filter (λ r, r ≠ []) lines) as [|r [|r' rs]] eqn:Hrs;
      [done| |simpl in Hshort; lia].
    unfold Np.rectangular, Np.width. cbn [forallb length].
    rewrite Nat.eqb_refl. simpl. by destruct r as [|x [|y r]]. }
  rewrite Hev. split; reflexivity.
Qed.

Lemma short_eigenvalues_file_fails_witness :
  OnePhoton.diag_loaded (OnePhoton.self Sample.neon) = false
  ∧ files Sample2.world_one_line !! "out/diag_eigenvalues_Jtot1.dat"
    = Some [[Sample.q 1; Sample.q 2]]
  ∧ (OnePhoton.load_diag_data Sample2.world_one_line "out/" None None false
       Sample.neon).1 = Raise IndexError.
Proof.
  destruct (short_eigenvalues_file_fails Sample2.world_one_line "out/"
              None None false Sample.neon [[Sample.q 1; Sample.q 2]])
    as (s' & Hload & _);
    [left; reflexivity | reflexivity | simpl; lia |].
  split; [reflexivity|]. split; [reflexivity|]. by rewrite Hload.
Defined.

(** ** Queries *)

(** X14. The queries of the registry only read: whatever they return
    or raise, they leave the state as it was. *)
Theorem queries_leave_the_state (s : OnePhoton.state) (n kappa : Z) :
  (OnePhoton.is_hole_loaded n kappa s).2 = s
  ∧ (OnePhoton.assert_hole_load n kappa s).2 = s
  ∧ (OnePhoton.get_channels_for_hole n kappa s).2 = s
  ∧ (OnePhoton.get_all_channels s).2 = s
  ∧ (OnePhoton.get_channel_labels_for_hole n kappa s).2 = s
  ∧ (OnePhoton.assert_diag_data_load s).2 = s
  ∧ (OnePhoton.get_diag_eigenvalues s).2 = s
  ∧ (OnePhoton.get_diag_matrix_elements s).2 = s.
Proof.
  split; [done|]. split.
  { unfold OnePhoton.assert_hole_load. run_method.
    by destruct (bool_decide _). }
  split.
  { destruct (OnePhoton.channels (OnePhoton.self s) !! (n, kappa))
      as [c|] eqn:Hc.
    - by destruct (get_channels_for_hole_present s n kappa c Hc) as [-> _].
    - by destruct (get_channels_for_hole_absent s n kappa Hc) as [-> _]. }
  split; [done|]. split.
  { destruct (OnePhoton.channels (OnePhoton.self s) !! (n, kappa))
      as [c|] eqn:Hc.
    - by destruct (get_channels_for_hole_present s n kappa c Hc) as [_ ->].
    - by destruct (get_channels_for_hole_absent s n kappa Hc) as [_ ->]. }
  split.
  { unfold OnePhoton.assert_diag_data_load. run_method.
    by destruct (OnePhoton.diag_loaded _). }
  destruct (OnePhoton.diag_loaded (OnePhoton.self s)) eqn:Hl.
  - by destruct (get_diag_loaded s Hl) as [-> ->].
  - by destruct (get_diag_not_loaded s Hl) as [-> ->].
Qed.

(** ** What every session keeps *)

Lemma start_consistent (atom : string) (g : Qc) :
  consistent (OnePhoton.start atom g).
Proof.
  split; simpl; done.
Qed.

Lemma registered_consistent (s : OnePhoton.state) (n k : Z)
    (evs : list event) (c : Channels.t) :
  consistent s →
  Hole.n (Channels.hole c) = n →
  Hole.kappa (Channels.hole c) = k →
  Hole.atom_name (Channels.hole c) = OnePhoton.atom_name (OnePhoton.self s) →
  Dict.keys (Channels.ionisation_paths c) = final_kappas k true →
  consistent (Resolved.registered s n k evs c).
Proof.
  intros [Hcount Hbound Halloc Hkeyed Hdist Hcompl] Hn Hk Ha Hkeys.
  split; simpl.
  - lia.
  - destruct (OnePhoton.channels (OnePhoton.self s) !! (n, k)) eqn:Hold.
    + rewrite map_size_insert_Some by done. lia.
    + rewrite map_size_insert_None by done. lia.
  - intros key o. rewrite lookup_insert. case_decide.
    + intros [= <-]. simpl. lia.
    + intros Ho. apply Halloc in Ho. lia.
  - intros key o. rewrite lookup_insert. case_decide.
    + intros [= <-]. subst key. done.
    + apply Hkeyed.
  - intros key1 key2 o1 o2. rewrite !lookup_insert.
    repeat case_decide; subst.
    + done.
    + intros [= <-] Ho Hid. apply Halloc in Ho. simpl in Hid. lia.
    + intros Ho [= <-] Hid. apply Halloc in Ho. simpl in Hid. lia.
    + apply Hdist.
  - exact Hcompl.
Qed.

Lemma trace_consistent (s : OnePhoton.state) (tr : list event) :
  consistent s →
  consistent (OnePhoton.State (OnePhoton.self s) (OnePhoton.next_id s) tr).
Proof. intros []. by split. Qed.

Lemma perform_consistent (s : OnePhoton.state) (c : call) :
  consistent s → consistent (perform s c).
Proof.
  intros Hs. destruct c as [w n k data opt | w data pe pm reload]; simpl.
  - rewrite load_hole_eq. cbv zeta.
    destruct (negb _ || _); [|done].
    destruct (Resolved.parsed w (OnePhoton.atom_name (OnePhoton.self s))
                data n k opt) as [c|e] eqn:Hc; cbn [snd].
    + destruct (parsed_hole _ _ _ _ _ _ _ Hc) as (Hn & Hk & Ha & _ & Hkeys & _).
      by apply registered_consistent.
    + by apply trace_consistent.
  - rewrite load_diag_data_eq. cbv zeta.
    destruct (negb _ || _); [|done].
    destruct Hs as [Hcount Hbound Halloc Hkeyed Hdist Hcompl].
    destruct (Resolved.eigenvalues w (Resolved.eigenvalues_path data pe))
      as [ev|e]; [|by split].
    destruct (Resolved.matrix_elements w
                (Resolved.matrix_elements_path data pm)) as [me|e].
    + split; simpl; done.
    + split; simpl; try done. intros Hl.
      destruct (Hcompl Hl) as [_ Hm]. by split.
Qed.

Lemma session_consistent (atom : string) (g : Qc) (cs : list call) :
  consistent (session atom g cs).
Proof.
  unfold session. induction cs as [|c cs IH] using rev_ind.
  - apply start_consistent.
  - rewrite foldl_app. simpl. by apply perform_consistent.
Qed.

Lemma perform_atom_name (s : OnePhoton.state) (c : call) :
  OnePhoton.atom_name (OnePhoton.self (perform s c))
  = OnePhoton.atom_name (OnePhoton.self s).
Proof.
  destruct c as [w n k data opt | w data pe pm reload]; simpl.
  - rewrite load_hole_eq. cbv zeta.
    destruct (negb _ || _); [|done].
    by destruct (Resolved.parsed w (OnePhoton.atom_name (OnePhoton.self s))
                   data n k opt).
  - rewrite load_diag_data_eq. cbv zeta.
    destruct (negb _ || _); [|done].
    destruct (Resolved.eigenvalues w (Resolved.eigenvalues_path data pe));
      [|done].
    by destruct (Resolved.matrix_elements w
                   (Resolved.matrix_elements_path data pm)).
Qed.

Lemma session_atom_name (atom : string) (g : Qc) (cs : list call) :
  OnePhoton.atom_name (OnePhoton.self (session atom g cs)) = atom.
Proof.
  unfold session. induction cs as [|c cs IH] using rev_ind; [done|].
  rewrite foldl_app. simpl. by rewrite perform_atom_name.
Qed.



(** X16. In every session the object registered under (n, kappa)
    belongs to that hole: its hole has the principal quantum number n,
    the kappa of the key and the atom of the registry, and the keys of
    its path dictionary are the reachable final kappas of kappa, in
    candidate order. *)
Theorem registered_object_matches_key (atom : string) (g : Qc)
    (cs : list call) (n kappa : Z) (o : object Channels.t) :
  OnePhoton.channels (OnePhoton.self (session atom g cs)) !! (n, kappa)
  = Some o →
  Hole.n (Channels.hole (val o)) = n
  ∧ Hole.kappa (Channels.hole (val o)) = kappa
  ∧ Hole.atom_name (Channels.hole (val o)) = atom
  ∧ Dict.keys (Channels.ionisation_paths (val o)) = final_kappas kappa true.
Proof.
  intros Ho.
  destruct (session_consistent atom g cs) as [_ _ _ Hkeyed _ _].
  destruct (Hkeyed _ _ Ho) as (Hn & Hk & Ha & Hkeys).
  repeat split; try done. rewrite Ha. apply session_atom_name.
Qed.

Lemma registered_object_matches_key_witness :
  ∃ o : object Channels.t,
    OnePhoton.channels
      (OnePhoton.self (session "Ne" (Sample.q 0) Sample2.calls)) !! (2, -1)
    = Some o
    ∧ Hole.kappa (Channels.hole (val o)) = -1
    ∧ Dict.keys (Channels.ionisation_paths (val o)) = [1; -2].
Proof.
  destruct (OnePhoton.channels
              (OnePhoton.self (session "Ne" (Sample.q 0) Sample2.calls))
              !! (2, -1)) as [o|] eqn:Ho; [|vm_compute in Ho; discriminate].
  exists o. split; [reflexivity|].
  destruct (registered_object_matches_key "Ne" (Sample.q 0) Sample2.calls
              2 (-1) o Ho) as (_ & Hk & _ & Hkeys).
  split; [exact Hk | exact Hkeys].
Defined.

(** X17. In every session the objects registered under two different
    keys are different objects, and every load that is carried out
    registers an object that was not registered before. *)
Theorem registered_objects_are_distinct (atom : string) (g : Qc)
    (cs : list call) (key1 key2 : Z * Z) (o1 o2 : object Channels.t) :
  let s := session atom g cs in
  OnePhoton.channels (OnePhoton.self s) !! key1 = Some o1 →
  OnePhoton.channels (OnePhoton.self s) !! key2 = Some o2 →
  (id o1 = id o2 → key1 = key2)
  ∧ ∀ (w : World) (n kappa : Z) (data : string)
      (opt : OnePhoton.load_hole_options) (s' : OnePhoton.state)
      (o' : object Channels.t),
      OnePhoton.channels (OnePhoton.self s) !! (kappa, n) = None
      ∨ OnePhoton.should_reload opt = true →
      OnePhoton.load_hole w n kappa data opt s = (Ok tt, s') →
      OnePhoton.channels (OnePhoton.self s') !! (n, kappa) = Some o' →
      id o' ≠ id o1.
Proof.
  intros s H1 H2.
  destruct (session_consistent atom g cs) as [_ _ Halloc _ Hdist _].
  split; [by apply (Hdist key1 key2)|].
  intros w n kappa data opt s' o' Hperf Hload Ho'.
  destruct (load_hole_performed _ _ _ _ _ _ _ Hperf Hload) as (c & _ & Hs).
  rewrite Hs in Ho'. simpl in Ho'. rewrite lookup_insert_eq in Ho'.
  injection Ho' as <-. simpl. apply Halloc in H1. fold s in H1. lia.
Qed.

Lemma registered_objects_are_distinct_witness :
  ∃ o1 o2 : object Channels.t,
    OnePhoton.channels
      (OnePhoton.self (session "Ne" (Sample.q 0) Sample2.calls)) !! (2, -1)
    = Some o1
    ∧ OnePhoton.channels
        (OnePhoton.self (session "Ne" (Sample.q 0) Sample2.calls)) !! (2, -2)
      = Some o2
    ∧ id o1 ≠ id o2.
Proof.
  destruct (OnePhoton.channels
              (OnePhoton.self (session "Ne" (Sample.q 0) Sample2.calls))
              !! (2, -1)) as [o1|] eqn:H1; [|vm_compute in H1; discriminate].
  destruct (OnePhoton.channels
              (OnePhoton.self (session "Ne" (Sample.q 0) Sample2.calls))
              !! (2, -2)) as [o2|] eqn:H2; [|vm_compute in H2; discriminate].
  exists o1, o2. split; [reflexivity|]. split; [reflexivity|].
  destruct (registered_objects_are_distinct "Ne" (Sample.q 0) Sample2.calls
              (2, -1) (2, -2) o1 o2 H1 H2) as [Hinj _].
  intros Hid. by apply Hinj in Hid.
Defined.

(** X18. In every session, when the diagonal accessors return, they
    return arrays: the flag they test is only set with both the
    eigenvalues and the matrix elements stored, also after loads that
    raised. *)
Theorem diag_accessors_return_arrays (atom : string) (g : Qc)
    (cs : list call) :
  let s := session atom g cs in
  (∀ v s', OnePhoton.get_diag_eigenvalues s = (Ok v, s') → is_Some v)
  ∧ (∀ v s', OnePhoton.get_diag_matrix_elements s = (Ok v, s') → is_Some v).
Proof.
  intros s. destruct (session_consistent atom g cs) as [_ _ _ _ _ Hcompl].
  fold s in Hcompl.
  destruct (OnePhoton.diag_loaded (OnePhoton.self s)) eqn:Hl.
  - destruct (Hcompl eq_refl) as [He Hm].
    destruct (get_diag_loaded s Hl) as [-> ->].
    split; intros v s' [= <- _]; done.
  - destruct (get_diag_not_loaded s Hl) as [-> ->].
    split; intros v s'; discriminate.
Qed.

(** ** Paths *)

(** X19. When the five data paths are given, and either a nonzero
    binding energy or the two energy paths are given as well,
    [load_hole] does not use [path_to_data]: the call behaves the same
    for every data folder. *)
Theorem explicit_paths_ignore_data_folder (w : World) (n kappa : Z)
    (data data' : string) (opt : OnePhoton.load_hole_options)
    (s : OnePhoton.state) :
  is_Some (OnePhoton.path_to_omega opt) →
  is_Some (OnePhoton.path_to_pcur_all opt) →
  is_Some (OnePhoton.path_to_amp_all opt) →
  is_Some (OnePhoton.path_to_phaseF_all opt) →
  is_Some (OnePhoton.path_to_phaseG_all opt) →
  OnePhoton.not_num (OnePhoton.binding_energy opt) = false
  ∨ (is_Some (OnePhoton.path_to_hf_energies opt)
     ∧ is_Some (OnePhoton.path_to_sp_ekin opt)) →
  OnePhoton.load_hole w n kappa data opt s
  = OnePhoton.load_hole w n kappa data' opt s.
Proof.
  intros [p1 H1] [p2 H2] [p3 H3] [p4 H4] [p5 H5] Hbe.
  rewrite !load_hole_eq. cbv zeta.
  assert (Hpaths :
            Resolved.omega data n kappa opt = Resolved.omega data' n kappa opt
            ∧ Resolved.pcur data n kappa opt = Resolved.pcur data' n kappa opt
            ∧ Resolved.amp data n kappa opt = Resolved.amp data' n kappa opt
            ∧ Resolved.phaseF data n kappa opt
              = Resolved.phaseF data' n kappa opt
            ∧ Resolved.phaseG data n kappa opt
              = Resolved.phaseG data' n kappa opt).
  { unfold Resolved.omega, Resolved.pcur, Resolved.amp, Resolved.phaseF,
      Resolved.phaseG. by rewrite H1, H2, H3, H4, H5. }
  destruct Hpaths as (Ho & Hp & Ha & Hf & Hg).
  assert (Hcalls : Resolved.loader_calls data n kappa opt
                   = Resolved.loader_calls data' n kappa opt
                   ∧ Resolved.hole w (OnePhoton.atom_name (OnePhoton.self s))
                       data n kappa opt
                     = Resolved.hole w (OnePhoton.atom_name (OnePhoton.self s))
                         data' n kappa opt).
  { unfold Resolved.loader_calls, Resolved.hole.
    destruct Hbe as [-> | [[q1 Hq1] [q2 Hq2]]]; [done|].
    unfold Resolved.hf_energies, Resolved.sp_ekin.
    by rewrite Hq1, Hq2, Ho. }
  destruct Hcalls as [Hc Hh].
  unfold Resolved.parsed. by rewrite Hc, Hh, Ho, Hp, Ha, Hf, Hg.
Qed.

Lemma explicit_paths_ignore_data_folder_witness :
  is_Some (OnePhoton.path_to_omega Sample2.explicit_paths)
  ∧ OnePhoton.not_num (OnePhoton.binding_energy Sample2.explicit_paths)
    = false
  ∧ OnePhoton.load_hole Sample.world 2 (-1) "nowhere/"
      Sample2.explicit_paths Sample.neon
    = OnePhoton.load_hole Sample.world 2 (-1) "out/"
        Sample2.explicit_paths Sample.neon
  ∧ is_ok (OnePhoton.load_hole Sample.world 2 (-1) "nowhere/"
             Sample2.explicit_paths Sample.neon).1 = true.
Proof.
  split; [by eexists|]. split; [reflexivity|].
  assert (Heq : OnePhoton.load_hole Sample.world 2 (-1) "nowhere/"
                  Sample2.explicit_paths Sample.neon
                = OnePhoton.load_hole Sample.world 2 (-1) "out/"
                    Sample2.explicit_paths Sample.neon).
  { apply explicit_paths_ignore_data_folder;
      try (by eexists). left. reflexivity. }
  split; [exact Heq|]. rewrite Heq. vm_compute. reflexivity.
Defined.

(** X20. The photon energies of a constructed [Channels] object are the
    whole table of the omega file: unlike the four other tables, no
    column is left out, and [get_raw_omega_data] returns it with every
    column and every row of the file. *)
Theorem omega_is_the_whole_file (w : World) (p1 p2 p3 p4 p5 : string)
    (hole : Hole.t) (ch : Channels.t) :
  Channels.init w p1 p2 p3 p4 p5 hole = Ok ch →
  ∃ rs : Np.text,
    files w !! p1 = Some rs
    ∧ Channels.get_raw_omega_data ch = Np.Table (Np.width rs) rs
    ∧ ∃ rate : Np.text,
        files w !! p2 = Some rate
        ∧ Channels.raw_rate_data ch
          = Np.Table (Nat.pred (Np.width rate)) (drop 1 <$> rate).
Proof.
  intros Hinit.
  destruct (init_tables _ _ _ _ _ _ _ _ Hinit)
    as (t1 & t2 & _ & _ & _ & H1 & H2 & _ & _ & _ & Ho & Hr & _).
  destruct (load_raw_data_Ok _ _ _ H1) as (rs & Hf1 & -> & _).
  destruct (load_raw_data_Ok _ _ _ H2) as (rate & Hf2 & -> & _).
  exists rs. split; [done|]. split; [done|]. by exists rate.
Qed.

Lemma omega_is_the_whole_file_witness :
  ∃ ch : Channels.t,
    Sample.channels_in "out/pert_-1_2/" Sample.hole_2s = Ok ch
    ∧ Channels.get_raw_omega_data ch = Np.Table 1 Sample.omega
    ∧ Np.ncols (Channels.raw_rate_data ch) = 2%nat.
Proof.
  destruct (Sample.channels_in "out/pert_-1_2/" Sample.hole_2s)
    as [ch|e] eqn:Hch; [|vm_compute in Hch; discriminate].
  exists ch. split; [reflexivity|].
  destruct (omega_is_the_whole_file _ _ _ _ _ _ _ _ Hch)
    as (rs & Hrs & -> & rate & Hrate & ->).
  vm_compute in Hrs. injection Hrs as <-.
  vm_compute in Hrate. injection Hrate as <-.
  split; reflexivity.
Defined.
